(** * multi-timer: a shallow embedding of [main.go]

    The program is a terminal Pomodoro-style manager: a list of timers, each
    a small state machine driven once per second, a parallel list of their
    persisted configurations, a one-slot channel that asks for a redraw, and
    a line-based command loop.

    Conventions of the embedding.
    - Go's [int] and [int64] (and so [time.Duration]) are [Z] with the
      two's-complement wrap-around written out ([wrap64]).
    - A Go [string] is a byte string, here Stdlib's [string].
    - A slice is a [list]; indexing out of range panics in Go, which is the
      result [None] here.
    - [*Timer] pointers in [activeTimers] are never shared between two
      positions, so a mutation through the pointer at position [i] is a
      write at position [i] of the list.
    - [notify] is an output effect: the functions return the list of
      notifications they send.
    - The mutex makes a tick and the body of a command exclude each other;
      a tick and a command are each one step here, and output to the
      terminal is left out. *)

From Stdlib Require Import ZArith Lia Ascii.
From Stdlib Require String.
From stdpp Require Import base list strings.

Local Open Scope Z_scope.

(** ** Machine integers *)

Definition wrap64 (z : Z) : Z := (z + 2 ^ 63) mod 2 ^ 64 - 2 ^ 63.

Definition int64_range (z : Z) : Prop := - 2 ^ 63 <= z < 2 ^ 63.

Definition in_int64 (z : Z) : bool := (- 2 ^ 63 <=? z) && (z <? 2 ^ 63).

(** [time.Duration] counts nanoseconds in an [int64]. *)
Definition Nanosecond : Z := 1.
Definition Second : Z := 1000000000.
Definition Minute : Z := 60 * Second.

(** [len(s)] as a Go [int]. *)
Definition len {A} (l : list A) : Z := Z.of_nat (length l).

(** [s[i]] for a Go [int] index: [None] is the run-time panic. *)
Definition index {A} (l : list A) (i : Z) : option A :=
  if i <? 0 then None else l !! Z.to_nat i.

(** ** Data model *)

Record TimerPhase := mkTimerPhase {
  WorkDuration : Z;
  BreakDuration : Z
}.

Record TimerState := mkTimerState {
  isWork : bool;
  currentTime : Z;
  cycles : Z;
  currentPhase : Z;
  name : string;
  notifText : string
}.

Record Timer := mkTimer {
  state : TimerState;
  phases : list TimerPhase;
  maxCycles : Z; (* -1 for unlimited *)
  isPaused : bool
}.

Record TimerConfig := mkTimerConfig {
  Name : string;
  NotifText : string;
  Phases : list TimerPhase;
  MaxCycles : Z
}.

(** A desktop notification: title and message. *)
Record Notification := mkNotification {
  title : string;
  message : string
}.

Definition notify (title message : string) : list Notification :=
  [mkNotification title message].

(** Field updates, as the assignments of the source. *)
Definition set_isWork (b : bool) (s : TimerState) : TimerState :=
  mkTimerState b (currentTime s) (cycles s) (currentPhase s) (name s) (notifText s).
Definition set_currentTime (d : Z) (s : TimerState) : TimerState :=
  mkTimerState (isWork s) d (cycles s) (currentPhase s) (name s) (notifText s).
Definition set_cycles (c : Z) (s : TimerState) : TimerState :=
  mkTimerState (isWork s) (currentTime s) c (currentPhase s) (name s) (notifText s).
Definition set_currentPhase (p : Z) (s : TimerState) : TimerState :=
  mkTimerState (isWork s) (currentTime s) (cycles s) p (name s) (notifText s).
Definition set_state (s : TimerState) (t : Timer) : Timer :=
  mkTimer s (phases t) (maxCycles t) (isPaused t).
Definition set_isPaused (b : bool) (t : Timer) : Timer :=
  mkTimer (state t) (phases t) (maxCycles t) b.

(** ** The timer state machine *)

(** The tail of the break branch of [update]: announce the work period and
    load the work duration of the (possibly new) current phase. *)
Definition start_work (t : Timer) : option (Timer * list Notification * bool) :=
  match index (phases t) (currentPhase (state t)) with
  | None => None
  | Some ph =>
      Some (set_state (set_currentTime (WorkDuration ph)
                         (set_isWork true (state t))) t,
            notify (name (state t)) (notifText (state t)),
            false)
  end.

(** [func (t *Timer) update() bool]: the timer after the call, the
    notifications sent and the returned flag; [None] when an index is out
    of range. *)
Definition update (t : Timer) : option (Timer * list Notification * bool) :=
  if isPaused t then Some (t, [], false)
  else if currentTime (state t) <=? 0 then
    match index (phases t) (currentPhase (state t)) with
    | None => None
    | Some cur =>
        if isWork (state t) then
          Some (set_state (set_currentTime (BreakDuration cur)
                             (set_isWork false (state t))) t,
                notify (name (state t)) ("Break: " +:+ notifText (state t)),
                false)
        else
          let t1 := set_state (set_cycles (wrap64 (cycles (state t) + 1)) (state t)) t in
          if negb (maxCycles t1 =? -1) && (maxCycles t1 <? cycles (state t1)) then
            let t2 := set_state (set_currentPhase
                                   (wrap64 (currentPhase (state t1) + 1)) (state t1)) t1 in
            if len (phases t2) <=? currentPhase (state t2) then
              Some (t2,
                    notify (name (state t2))
                           ("All phases completed: " +:+ notifText (state t2)),
                    true)
            else start_work (set_state (set_cycles 1 (state t2)) t2)
          else start_work t1
    end
  else
    Some (set_state (set_currentTime (wrap64 (currentTime (state t) - Second))
                       (state t)) t,
          [], false).

(** ** The scheduler *)

(** The body of the [for i := len-1; i >= 0; i--] loop, with [k = i + 1]
    iterations still to run. *)
Fixpoint update_loop (k : nat) (ts : list Timer) (out : list Notification)
    (needsDisplay : bool) : option (list Timer * list Notification * bool) :=
  match k with
  | O => Some (ts, out, needsDisplay)
  | S i =>
      match ts !! i with
      | None => None
      | Some timer =>
          match update timer with
          | None => None
          | Some (timer', ns, completed) =>
              let ts1 := <[i := timer']> ts in
              let ts2 := if completed : bool
                         then take i ts1 ++ drop (S i) ts1 else ts1 in
              update_loop i ts2 (out ++ ns) true
          end
      end
  end.

(** ** The redraw channel

    [displayChan] is made by [make(chan bool, 1)]: a FIFO buffer with a
    capacity. Only the two operations the program uses are modelled. *)

Record Chan := mkChan {
  cap : nat;
  buf : list bool
}.

Definition make_chan (n : nat) : Chan := mkChan n [].

(** [select { case ch <- v: default: }]: the send happens when the buffer
    has room, and otherwise the default branch runs and the value is
    dropped. Either way the statement completes. *)
Definition try_send (ch : Chan) (v : bool) : Chan :=
  if (length (buf ch) <? cap ch)%nat then mkChan (cap ch) (buf ch ++ [v]) else ch.

(** [<-ch] as in [for range tm.displayChan]: [None] when the receiver has
    to wait. *)
Definition recv (ch : Chan) : option (bool * Chan) :=
  match buf ch with
  | [] => None
  | v :: rest => Some (v, mkChan (cap ch) rest)
  end.

Definition pending (ch : Chan) : nat := length (buf ch).

(** ** The manager *)

Record TimerManager := mkTimerManager {
  activeTimers : list Timer;
  configs : list TimerConfig;
  displayChan : Chan
}.

Definition NewTimerManager : TimerManager :=
  mkTimerManager [] [] (make_chan 1).

(** One firing of the ticker in [startUpdateLoop]: the loop over the
    timers under the lock, then the non-blocking send. *)
Definition tick (tm : TimerManager) : option (TimerManager * list Notification) :=
  match update_loop (length (activeTimers tm)) (activeTimers tm) [] false with
  | None => None
  | Some (ts, out, needsDisplay) =>
      Some (mkTimerManager ts (configs tm)
              (if needsDisplay then try_send (displayChan tm) true
               else displayChan tm),
            out)
  end.

(** [startUpdateLoop] runs [tick] at every firing of the ticker, for ever;
    here it is cut after [n] firings. *)
Fixpoint startUpdateLoop (n : nat) (tm : TimerManager) : option TimerManager :=
  match n with
  | O => Some tm
  | S n' =>
      match tick tm with
      | None => None
      | Some (tm', _) => startUpdateLoop n' tm'
      end
  end.

(** The display goroutine takes one request off the channel. *)
Definition drain (tm : TimerManager) : option TimerManager :=
  match recv (displayChan tm) with
  | None => None
  | Some (_, ch) => Some (mkTimerManager (activeTimers tm) (configs tm) ch)
  end.

(** [update] called [n] times on one timer, stopping at a panic; the
    flags returned are collected in order. *)
Fixpoint updates (n : nat) (t : Timer) : option (Timer * list Notification * list bool) :=
  match n with
  | O => Some (t, [], [])
  | S n' =>
      match update t with
      | None => None
      | Some (t1, ns1, c1) =>
          match updates n' t1 with
          | None => None
          | Some (t2, ns2, cs) => Some (t2, ns1 ++ ns2, c1 :: cs)
          end
      end
  end.

(** ** Library functions on strings

    [strings.Contains] and [strings.Split] are used with the one-byte
    separator [":"], so the separator is a byte here. [strconv.Atoi] follows
    the library: an optional sign, then decimal digits only, accumulated in
    an unsigned 64-bit register and then checked against the range of
    [int]. *)

Definition byte (c : ascii) : Z := Z.of_N (N_of_ascii c).

Fixpoint Contains (s : string) (sep : ascii) : bool :=
  match s with
  | EmptyString => false
  | String c r => Ascii.eqb c sep || Contains r sep
  end.

Fixpoint Split (s : string) (sep : ascii) : list string :=
  match s with
  | EmptyString => [EmptyString]
  | String c r =>
      if Ascii.eqb c sep then EmptyString :: Split r sep
      else match Split r sep with
           | [] => [String c EmptyString]
           | p :: ps => String c p :: ps
           end
  end.

Inductive NumError := ErrSyntax | ErrRange.

Definition is_digit (c : ascii) : bool := (48 <=? byte c) && (byte c <=? 57).

(** The digit loop of [strconv.ParseUint(s, 10, 64)]. *)
Fixpoint parse_uint (n : Z) (s : string) : Z + NumError :=
  match s with
  | EmptyString => inl n
  | String c r =>
      if is_digit c then
        let n1 := n * 10 + (byte c - 48) in
        if n1 <? 2 ^ 64 then parse_uint n1 r else inr ErrRange
      else inr ErrSyntax
  end.

Definition Atoi (s : string) : Z + NumError :=
  match s with
  | EmptyString => inr ErrSyntax
  | String c r =>
      let neg := Ascii.eqb c "-"%char in
      let body := if neg || Ascii.eqb c "+"%char then r else s in
      match body with
      | EmptyString => inr ErrSyntax
      | _ =>
          match parse_uint 0 body with
          | inr e => inr e
          | inl un =>
              if neg then (if un <=? 2 ^ 63 then inl (- un) else inr ErrRange)
              else (if un <? 2 ^ 63 then inl un else inr ErrRange)
          end
      end
  end.

(** The three ways [parseDuration] fails: its own two messages and the
    error of [Atoi] passed on. *)
Inductive ParseError :=
  | ErrInvalidFormat        (* "invalid format, use MM:SS" *)
  | ErrInvalidNumbers       (* "invalid numbers" *)
  | ErrAtoi (e : NumError).

(** [timerFromConfig]; [config.Phases[0]] panics on an empty list. *)
Definition timerFromConfig (config : TimerConfig) : option Timer :=
  match index (Phases config) 0 with
  | None => None
  | Some ph0 =>
      Some (mkTimer
              (mkTimerState true (WorkDuration ph0) 1 0 (Name config) (NotifText config))
              (Phases config) (MaxCycles config) false)
  end.

Section Interactive.

(** [strings.TrimSpace] and [strings.ToLower] are taken as they come from
    the library. *)
Variables TrimSpace ToLower : string → string.

Definition parseDuration (input : string) : Z + ParseError :=
  let input := TrimSpace input in
  if Contains input ":"%char then
    match Split input ":"%char with
    | [p0; p1] =>
        match Atoi p0, Atoi p1 with
        | inl minutes, inl seconds =>
            inl (wrap64 (wrap64 (minutes * Minute) + wrap64 (seconds * Second)))
        | _, _ => inr ErrInvalidNumbers
        end
    | _ => inr ErrInvalidFormat
    end
  else
    match Atoi input with
    | inl minutes => inl (wrap64 (minutes * Minute))
    | inr e => inr (ErrAtoi e)
    end.

(** Standard input is the list of the lines still to come; at the end of
    input [ReadString] returns the empty string. *)
Definition readLine (r : list string) : string * list string :=
  match r with
  | [] => (TrimSpace EmptyString, [])
  | l :: r' => (TrimSpace l, r')
  end.

(** The [for] loop of [createTimer] that collects the phases. It runs
    until an answer other than "y"; [None] is a loop that has not ended
    within [fuel] rounds. *)
Fixpoint read_phases (fuel : nat) (phs : list TimerPhase) (r : list string)
    : option (list TimerPhase * list string) :=
  match fuel with
  | O => None
  | S fuel' =>
      let '(workStr, r1) := readLine r in
      match parseDuration workStr with
      | inr _ => read_phases fuel' phs r1
      | inl workDur =>
          let '(breakStr, r2) := readLine r1 in
          match parseDuration breakStr with
          | inr _ => read_phases fuel' phs r2
          | inl breakDur =>
              let phs' := phs ++ [mkTimerPhase workDur breakDur] in
              let '(more, r3) := readLine r2 in
              if String.eqb (ToLower more) "y" then read_phases fuel' phs' r3
              else Some (phs', r3)
          end
      end
  end.

Definition createTimer (fuel : nat) (r : list string)
    : option (Timer * TimerConfig * list string) :=
  let '(name, r) := readLine r in
  let '(notifText, r) := readLine r in
  match read_phases fuel [] r with
  | None => None
  | Some (phs, r) =>
      let '(cycleType, r) := readLine r in
      let maxCycles :=
        if String.eqb cycleType "u" then -1
        else match Atoi cycleType with
             | inl cycles => if 0 <? cycles then cycles else -1
             | inr _ => -1
             end in
      let config := mkTimerConfig name notifText phs maxCycles in
      match index phs 0 with
      | None => None
      | Some ph0 =>
          Some (mkTimer (mkTimerState true (WorkDuration ph0) 1 0 name notifText)
                        phs maxCycles false,
                config, r)
      end
  end.

End Interactive.

(** ** UTF-8

    [encoding/json] coerces every Go string to valid UTF-8: a byte that
    does not start a well-formed sequence ([utf8.DecodeRune] answers
    [RuneError] with width 1) is replaced by U+FFFD, whose encoding is
    [EF BF BD]. The table is the one of package [unicode/utf8]. *)

Inductive Lead :=
  | LeadAscii
  | LeadInvalid
  | LeadMulti (size : nat) (lo hi : Z).

Definition first (b : Z) : Lead :=
  if b <? 128 then LeadAscii
  else if b <? 194 then LeadInvalid
  else if b <? 224 then LeadMulti 2 128 191
  else if b =? 224 then LeadMulti 3 160 191
  else if b <? 237 then LeadMulti 3 128 191
  else if b =? 237 then LeadMulti 3 128 159
  else if b <? 240 then LeadMulti 3 128 191
  else if b =? 240 then LeadMulti 4 144 191
  else if b <? 244 then LeadMulti 4 128 191
  else if b =? 244 then LeadMulti 4 128 143
  else LeadInvalid.

Definition between (lo hi : Z) (c : ascii) : bool :=
  (lo <=? byte c) && (byte c <=? hi).

Definition replacement : string :=
  String (ascii_of_N 239) (String (ascii_of_N 191) (String (ascii_of_N 189) EmptyString)).

Fixpoint coerceUTF8 (s : string) : string :=
  match s with
  | EmptyString => EmptyString
  | String c0 r0 =>
      let bad := replacement +:+ coerceUTF8 r0 in
      match first (byte c0) with
      | LeadAscii => String c0 (coerceUTF8 r0)
      | LeadInvalid => bad
      | LeadMulti size lo hi =>
          match r0 with
          | EmptyString => bad
          | String c1 r1 =>
              if between lo hi c1 then
                match size with
                | 2%nat => String c0 (String c1 (coerceUTF8 r1))
                | _ =>
                    match r1 with
                    | EmptyString => bad
                    | String c2 r2 =>
                        if between 128 191 c2 then
                          match size with
                          | 3%nat => String c0 (String c1 (String c2 (coerceUTF8 r2)))
                          | _ =>
                              match r2 with
                              | EmptyString => bad
                              | String c3 r3 =>
                                  if between 128 191 c3 then
                                    String c0 (String c1 (String c2
                                      (String c3 (coerceUTF8 r3))))
                                  else bad
                              end
                          end
                        else bad
                    end
                end
              else bad
          end
      end
  end.

(** Well-formed UTF-8, one constructor per row of the table. *)
Inductive ValidUTF8 : string → Prop :=
  | valid_nil : ValidUTF8 EmptyString
  | valid_1 c0 r :
      first (byte c0) = LeadAscii → ValidUTF8 r → ValidUTF8 (String c0 r)
  | valid_2 c0 c1 lo hi r :
      first (byte c0) = LeadMulti 2 lo hi → between lo hi c1 = true →
      ValidUTF8 r → ValidUTF8 (String c0 (String c1 r))
  | valid_3 c0 c1 c2 lo hi r :
      first (byte c0) = LeadMulti 3 lo hi → between lo hi c1 = true →
      between 128 191 c2 = true →
      ValidUTF8 r → ValidUTF8 (String c0 (String c1 (String c2 r)))
  | valid_4 c0 c1 c2 c3 lo hi r :
      first (byte c0) = LeadMulti 4 lo hi → between lo hi c1 = true →
      between 128 191 c2 = true → between 128 191 c3 = true →
      ValidUTF8 r → ValidUTF8 (String c0 (String c1 (String c2 (String c3 r)))).

(** ** The configuration file

    [encoding/json] is modelled at the level of the JSON document: the
    encoder builds a document from the Go value and the decoder fills a Go
    value from a document. The text written to and parsed from the file is
    the library's concern; the file is taken to hold the document itself. *)

#[local] Set Warnings "-register-all".

Inductive json :=
  | JNull
  | JBool (b : bool)
  | JInt (z : Z)          (* a number literal that is an integer *)
  | JFrac                 (* any other number literal *)
  | JStr (s : string)
  | JArr (l : list json)
  | JObj (members : list (string * json)).

(** [func (p TimerPhase) MarshalJSON]: the two durations converted to
    [int64] and marshalled as a struct. *)
Definition MarshalJSON (p : TimerPhase) : json :=
  JObj [("WorkDuration", JInt (WorkDuration p));
        ("BreakDuration", JInt (BreakDuration p))].

Definition encode_string (s : string) : json := JStr (coerceUTF8 s).

(** A nil slice is written as [null] and an empty one as [[]]; both are
    the empty list here and the encoder below writes the second form. The
    decoder reads either back as a slice without elements. *)
Definition encode_config (c : TimerConfig) : json :=
  JObj [("Name", encode_string (Name c));
        ("NotifText", encode_string (NotifText c));
        ("Phases", JArr (MarshalJSON <$> Phases c));
        ("MaxCycles", JInt (MaxCycles c))].

Definition encode_configs (cs : list TimerConfig) : json :=
  JArr (encode_config <$> cs).

Fixpoint fold_members {S : Type} (step : S → string * json → option S)
    (s : S) (ms : list (string * json)) : option S :=
  match ms with
  | [] => Some s
  | m :: ms' =>
      match step s m with
      | None => None
      | Some s' => fold_members step s' ms'
      end
  end.

Inductive AuxField := FWorkDuration | FBreakDuration.
Inductive ConfigField := FName | FNotifText | FPhases | FMaxCycles.

Definition aux_fields : list (string * AuxField) :=
  [("WorkDuration", FWorkDuration); ("BreakDuration", FBreakDuration)].

Definition config_fields : list (string * ConfigField) :=
  [("Name", FName); ("NotifText", FNotifText);
   ("Phases", FPhases); ("MaxCycles", FMaxCycles)].

Section Decoder.

(** The decoder matches an object key with a field name exactly, and
    failing that under the library's case folding, which is left
    abstract. *)
Variable EqualFold : string → string → bool.

Definition field_of_key {F : Type} (fields : list (string * F)) (key : string)
    : option F :=
  match find (λ f, String.eqb f.1 key) fields with
  | Some f => Some f.2
  | None => snd <$> find (λ f, EqualFold f.1 key) fields
  end.

(** A JSON value stored into a Go value; [null] leaves integers, strings
    and structs as they are. [None] is a decoding error. *)
Definition decode_int (cur : Z) (j : json) : option Z :=
  match j with
  | JNull => Some cur
  | JInt z => if in_int64 z then Some z else None
  | _ => None
  end.

Definition decode_string (cur : string) (j : json) : option string :=
  match j with
  | JNull => Some cur
  | JStr s => Some (coerceUTF8 s)
  | _ => None
  end.

Definition decode_slice {A : Type} (elem : json → option A) (j : json)
    : option (list A) :=
  match j with
  | JNull => Some []
  | JArr l => mapM elem l
  | _ => None
  end.

(** [json.Unmarshal(data, aux)] for the two-field struct. *)
Definition decode_aux_member (a : Z * Z) (m : string * json) : option (Z * Z) :=
  match field_of_key aux_fields m.1 with
  | Some FWorkDuration => w ← decode_int a.1 m.2; Some (w, a.2)
  | Some FBreakDuration => b ← decode_int a.2 m.2; Some (a.1, b)
  | None => Some a
  end.

Definition decode_aux (j : json) : option (Z * Z) :=
  match j with
  | JNull => Some (0, 0)
  | JObj ms => fold_members decode_aux_member (0, 0) ms
  | _ => None
  end.

(** [func (p *TimerPhase) UnmarshalJSON]. *)
Definition UnmarshalJSON (data : json) : option TimerPhase :=
  aux ← decode_aux data; Some (mkTimerPhase aux.1 aux.2).

Definition decode_config_member (c : TimerConfig) (m : string * json)
    : option TimerConfig :=
  match field_of_key config_fields m.1 with
  | Some FName =>
      s ← decode_string (Name c) m.2;
      Some (mkTimerConfig s (NotifText c) (Phases c) (MaxCycles c))
  | Some FNotifText =>
      s ← decode_string (NotifText c) m.2;
      Some (mkTimerConfig (Name c) s (Phases c) (MaxCycles c))
  | Some FPhases =>
      ps ← decode_slice UnmarshalJSON m.2;
      Some (mkTimerConfig (Name c) (NotifText c) ps (MaxCycles c))
  | Some FMaxCycles =>
      n ← decode_int (MaxCycles c) m.2;
      Some (mkTimerConfig (Name c) (NotifText c) (Phases c) n)
  | None => Some c
  end.

Definition zero_config : TimerConfig :=
  mkTimerConfig EmptyString EmptyString [] 0.

Definition decode_config (j : json) : option TimerConfig :=
  match j with
  | JNull => Some zero_config
  | JObj ms => fold_members decode_config_member zero_config ms
  | _ => None
  end.

Definition decode_configs (j : json) : option (list TimerConfig) :=
  decode_slice decode_config j.

End Decoder.

(** What [timers.json] holds: a JSON document, or bytes that are not
    one. The file may also be absent. *)
Inductive FileContents :=
  | Document (d : json)
  | Malformed.

Definition File := option FileContents.

(** [saveTimerConfigs]: the file is created or truncated and the
    encoding of the whole list is written. *)
Definition saveTimerConfigs (cs : list TimerConfig) : File :=
  Some (Document (encode_configs cs)).

Inductive LoadError := ErrDecode.

(** [loadTimerConfigs]: no file is an empty list and no error. *)
Definition loadTimerConfigs (EqualFold : string → string → bool) (f : File)
    : list TimerConfig + LoadError :=
  match f with
  | None => inl []
  | Some Malformed => inr ErrDecode
  | Some (Document d) =>
      match decode_configs EqualFold d with
      | Some cs => inl cs
      | None => inr ErrDecode
      end
  end.

(** ** Start-up and the commands of [main] *)

Record World := mkWorld {
  manager : TimerManager;
  configFile : File
}.

(** The beginning of [main]: the saved configurations are loaded (a load
    error leaves the list empty) and one timer is built from each. *)
Definition startup (EqualFold : string → string → bool) (f : File)
    : option TimerManager :=
  let tm := NewTimerManager in
  let cfgs := match loadTimerConfigs EqualFold f with
              | inl cs => cs
              | inr _ => configs tm
              end in
  timers ← mapM timerFromConfig cfgs;
  Some (mkTimerManager (activeTimers tm ++ timers) cfgs (displayChan tm)).

(** Slice expressions [s[:hi]] and [s[lo:]]. A bound above the length
    panics; for [s[:hi]] Go allows a bound up to the capacity, but the
    program pairs every [s[:n-1]] with [s[n:]], which panics as soon as [n]
    exceeds the length. *)
Definition slice_to {A} (l : list A) (hi : Z) : option (list A) :=
  if (0 <=? hi) && (hi <=? len l) then Some (take (Z.to_nat hi) l) else None.

Definition slice_from {A} (l : list A) (lo : Z) : option (list A) :=
  if (0 <=? lo) && (lo <=? len l) then Some (drop (Z.to_nat lo) l) else None.

(** The guard [num > 0 && num <= len(tm.activeTimers)] of the three
    indexed commands. *)
Definition valid_num (num : Z) (tm : TimerManager) : bool :=
  (0 <? num) && (num <=? len (activeTimers tm)).

(** Command [p <n>]. *)
Definition cmd_pause (num : Z) (tm : TimerManager) : option TimerManager :=
  if valid_num num tm then
    match index (activeTimers tm) (num - 1) with
    | None => None
    | Some t =>
        Some (mkTimerManager
                (<[Z.to_nat (num - 1) := set_isPaused (negb (isPaused t)) t]>
                   (activeTimers tm))
                (configs tm) (displayChan tm))
    end
  else Some tm.

(** Command [r <n>]. *)
Definition cmd_reset (num : Z) (tm : TimerManager) : option TimerManager :=
  if valid_num num tm then
    match index (activeTimers tm) (num - 1) with
    | None => None
    | Some t =>
        match index (phases t) 0 with
        | None => None
        | Some ph0 =>
            Some (mkTimerManager
                    (<[Z.to_nat (num - 1) :=
                         set_state (set_currentTime (WorkDuration ph0) (state t)) t]>
                       (activeTimers tm))
                    (configs tm) (displayChan tm))
        end
    end
  else Some tm.

(** Command [d <n>]: both lists lose position [n], then the
    configurations are saved. *)
Definition cmd_delete (num : Z) (w : World) : option World :=
  let tm := manager w in
  if valid_num num tm then
    a1 ← slice_to (activeTimers tm) (num - 1);
    a2 ← slice_from (activeTimers tm) num;
    c1 ← slice_to (configs tm) (num - 1);
    c2 ← slice_from (configs tm) num;
    let tm' := mkTimerManager (a1 ++ a2) (c1 ++ c2) (displayChan tm) in
    Some (mkWorld tm' (saveTimerConfigs (configs tm')))
  else Some w.

(** Command [a]: the new timer and its configuration go to the end of
    the two lists, then the configurations are saved. *)
Definition cmd_add (TrimSpace ToLower : string → string) (fuel : nat)
    (r : list string) (w : World) : option (World * list string) :=
  match createTimer TrimSpace ToLower fuel r with
  | None => None
  | Some (timer, config, r') =>
      let tm := manager w in
      let tm' := mkTimerManager (activeTimers tm ++ [timer])
                                (configs tm ++ [config]) (displayChan tm) in
      Some (mkWorld tm' (saveTimerConfigs (configs tm')), r')
  end.

(** ** Notions used in the statements *)

(** The phase index addresses a phase. *)
Definition phase_inv (t : Timer) : Prop :=
  0 <= currentPhase (state t) < len (phases t).

(** A list that a Go slice can hold: its length is an [int]. *)
Definition fits_int {A} (l : list A) : Prop := len l < 2 ^ 63.

Definition timer_ok (t : Timer) : Prop := phase_inv t ∧ fits_int (phases t).

(** The scheduler loop said in one pass: every timer is updated, the last
    one first, and those that report completion are left out. This one
    follows the description of the tick; [update_loop] above follows the
    code, and the two are compared below. *)
Fixpoint tick_list (ts : list Timer) : option (list Timer * list Notification) :=
  match ts with
  | [] => Some ([], [])
  | t :: r =>
      match tick_list r with
      | None => None
      | Some (r', out) =>
          match update t with
          | None => None
          | Some (t', ns, completed) =>
              Some (if completed : bool then r' else t' :: r', out ++ ns)
          end
      end
  end.

(** Decimal integer literals of the range of [int], said without the
    parsing loop: an optional sign, at least one digit, nothing else. *)
Fixpoint all_digits (s : string) : bool :=
  match s with
  | EmptyString => true
  | String c r => is_digit c && all_digits r
  end.

Fixpoint decimal (acc : Z) (s : string) : Z :=
  match s with
  | EmptyString => acc
  | String c r => decimal (acc * 10 + (byte c - 48)) r
  end.

Inductive IntLiteral : string → Z → Prop :=
  | lit_plain ds :
      ds ≠ EmptyString → all_digits ds = true → decimal 0 ds < 2 ^ 63 →
      IntLiteral ds (decimal 0 ds)
  | lit_plus ds :
      ds ≠ EmptyString → all_digits ds = true → decimal 0 ds < 2 ^ 63 →
      IntLiteral (String "+" ds) (decimal 0 ds)
  | lit_minus ds :
      ds ≠ EmptyString → all_digits ds = true → decimal 0 ds <= 2 ^ 63 →
      IntLiteral (String "-" ds) (- decimal 0 ds).

(** A configuration whose numbers are [int64] values, as its Go type
    says, and whose two strings are well-formed UTF-8. *)
Definition phase_in_range (p : TimerPhase) : Prop :=
  int64_range (WorkDuration p) ∧ int64_range (BreakDuration p).

Definition config_in_range (c : TimerConfig) : Prop :=
  int64_range (MaxCycles c) ∧ Forall phase_in_range (Phases c).

Definition config_utf8 (c : TimerConfig) : Prop :=
  ValidUTF8 (Name c) ∧ ValidUTF8 (NotifText c).

(** Functions to run the examples with: the library's [TrimSpace] and
    [ToLower] restricted to ASCII, and a folding that matches nothing beyond
    the exact name. *)
Definition is_ascii_space (c : ascii) : bool :=
  (byte c =? 32) || ((9 <=? byte c) && (byte c <=? 13)).

Fixpoint trim_left (s : string) : string :=
  match s with
  | EmptyString => EmptyString
  | String c r => if is_ascii_space c then trim_left r else s
  end.

Fixpoint trim_right (s : string) : string :=
  match s with
  | EmptyString => EmptyString
  | String c r =>
      match trim_right r with
      | EmptyString => if is_ascii_space c then EmptyString else String c EmptyString
      | r' => String c r'
      end
  end.

Definition ascii_TrimSpace (s : string) : string := trim_right (trim_left s).

Definition ascii_lower (c : ascii) : ascii :=
  if (65 <=? byte c) && (byte c <=? 90) then ascii_of_N (N_of_ascii c + 32) else c.

Fixpoint ascii_ToLower (s : string) : string :=
  match s with
  | EmptyString => EmptyString
  | String c r => String (ascii_lower c) (ascii_ToLower r)
  end.

Definition no_fold (a b : string) : bool := false.

(** The timers of the examples: one phase of two seconds of work and one
    second of break. *)
Definition demo_phases : list TimerPhase :=
  [mkTimerPhase (2 * Second) (1 * Second)].

Definition demo_timer (nm txt : string) (c max : Z) : Timer :=
  mkTimer (mkTimerState true (2 * Second) c 0 nm txt) demo_phases max false.

(** ** Further notions

    A duration that is a whole, non-negative number of seconds, as every
    duration typed in as minutes and seconds is. *)
Definition whole_seconds (d : Z) : Prop :=
  0 <= d < 2 ^ 63 ∧ d mod Second = 0.

Definition phase_whole (p : TimerPhase) : Prop :=
  whole_seconds (WorkDuration p) ∧ whole_seconds (BreakDuration p).

Definition time_ok (t : Timer) : Prop :=
  whole_seconds (currentTime (state t)) ∧ Forall phase_whole (phases t).

(** The number of seconds in a duration, and the number of calls of
    [update] that one work and break cycle of a phase takes: one per second
    and one more for each of the two transitions. *)
Definition secs (d : Z) : nat := Z.to_nat (d / Second).

Definition cycle_calls (p : TimerPhase) : nat :=
  (secs (WorkDuration p) + 1 + (secs (BreakDuration p) + 1))%nat.

Fixpoint program_calls (m : nat) (ps : list TimerPhase) : nat :=
  match ps with
  | [] => 0
  | p :: rest => m * cycle_calls p + program_calls m rest
  end.

(** A timer runs the program of a configuration. *)
Definition built_from (t : Timer) (c : TimerConfig) : Prop :=
  name (state t) = Name c ∧ notifText (state t) = NotifText c ∧
  phases t = Phases c ∧ maxCycles t = MaxCycles c.

(** The two lists of the manager are in lock-step: same length, and the
    timer at each position runs the configuration at that position. *)
Definition lockstep (tm : TimerManager) : Prop :=
  Forall2 built_from (activeTimers tm) (configs tm).

(** An unpaused timer given by its fields, with the counters as natural
    numbers. *)
Definition timer_at (ps : list TimerPhase) (m : nat) (nm tx : string)
    (w : bool) (d : Z) (c i : nat) : Timer :=
  mkTimer (mkTimerState w d (Z.of_nat c) (Z.of_nat i) nm tx) ps (Z.of_nat m) false.


(** The number of occurrences of a byte in a string. *)
Fixpoint count_byte (s : string) (sep : ascii) : nat :=
  match s with
  | EmptyString => 0
  | String c r => (if Ascii.eqb c sep then 1 else 0) + count_byte r sep
  end.

(** A closing tactic for goals that are conjunctions of field equations
    and bounds. *)
Ltac by_fields :=
  repeat split; cbn; intros; try done; try discriminate; lia.

(** * Properties *)

(** ** Arithmetic of the wrap-around *)

Lemma wrap64_id z : int64_range z → wrap64 z = z.
Proof.
  unfold int64_range, wrap64. intros Hz.
  rewrite Z.mod_small by lia. lia.
Qed.

Lemma wrap64_range z : int64_range (wrap64 z).
Proof.
  unfold int64_range, wrap64.
  pose proof (Z.mod_pos_bound (z + 2 ^ 63) (2 ^ 64)). lia.
Qed.

Lemma wrap64_add_l a b : wrap64 (wrap64 a + b) = wrap64 (a + b).
Proof.
  unfold wrap64. f_equal.
  replace (((a + 2 ^ 63) mod 2 ^ 64 - 2 ^ 63) + b + 2 ^ 63)
    with ((a + 2 ^ 63) mod 2 ^ 64 + b) by lia.
  rewrite Zplus_mod_idemp_l. f_equal. lia.
Qed.

Lemma wrap64_add_r a b : wrap64 (a + wrap64 b) = wrap64 (a + b).
Proof. rewrite (Z.add_comm a), wrap64_add_l. f_equal. lia. Qed.

Lemma wrap64_idem z : wrap64 (wrap64 z) = wrap64 z.
Proof. apply wrap64_id, wrap64_range. Qed.

Lemma in_int64_spec z : in_int64 z = true ↔ int64_range z.
Proof. unfold in_int64, int64_range. rewrite andb_true_iff. lia. Qed.

(** ** The paused timer *)

Lemma update_paused t : isPaused t = true → update t = Some (t, [], false).
Proof. intros H. unfold update. by rewrite H. Qed.

(** C7. A paused timer is left exactly as it is by [update], whatever its
    state and however often the call is repeated: the timer after [n]
    calls is the same timer (so [remaining], [isWork], [cycleCount] and
    [currentPhaseIndex] are unchanged), no notification is sent and every
    call returns false. *)
Theorem paused_update_noop (t : Timer) (n : nat) :
  isPaused t = true →
  updates n t = Some (t, [], replicate n false).
Proof.
  intros Hp. induction n as [|n IH]; [done|].
  cbn [updates]. rewrite (update_paused t Hp), IH. done.
Qed.

Lemma paused_update_noop_witness :
  let t := set_isPaused true (demo_timer "tea" "steep" 1 (-1)) in
  isPaused t = true ∧ updates 4 t = Some (t, [], [false; false; false; false]).
Proof.
  split; [reflexivity|].
  apply (paused_update_noop (set_isPaused true (demo_timer "tea" "steep" 1 (-1))) 4).
  reflexivity.
Defined.

(** ** One work and break cycle *)

(** C1, as stated, fails: after two calls the timer that started in
    Working with 2 s remaining has counted down to 0 s and is still in
    Working; it is not in OnBreak with 1 s remaining. *)
Lemma C1_two_updates_counterexample :
  ¬ ∃ t ns cs,
      updates 2 (demo_timer "tea" "steep" 1 (-1)) = Some (t, ns, cs) ∧
      isWork (state t) = false ∧ currentTime (state t) = 1 * Second.
Proof.
  intros (t & ns & cs & Hrun & Hw & _).
  vm_compute in Hrun. injection Hrun as <- _ _. discriminate Hw.
Qed.

(** C1 (amended). An unpaused single-phase timer (work 2 s, break 1 s,
    unlimited cycles) that starts in Working with 2 s remaining is still in
    Working, with 0 s remaining, after two calls of [update]; the third
    call puts it in OnBreak with 1 s remaining; two further calls (five in
    all) put it back in Working with the cycle count incremented and 2 s
    remaining. No call reports completion. *)
Theorem one_phase_cycle (nm txt : string) (c : Z) :
  let t := demo_timer nm txt c (-1) in
  updates 2 t =
    Some (mkTimer (mkTimerState true 0 c 0 nm txt) demo_phases (-1) false,
          [], [false; false]) ∧
  updates 3 t =
    Some (mkTimer (mkTimerState false (1 * Second) c 0 nm txt) demo_phases (-1) false,
          notify nm ("Break: " +:+ txt), [false; false; false]) ∧
  updates 5 t =
    Some (mkTimer (mkTimerState true (2 * Second) (wrap64 (c + 1)) 0 nm txt)
                  demo_phases (-1) false,
          notify nm ("Break: " +:+ txt) ++ notify nm txt,
          [false; false; false; false; false]).
Proof. repeat split. Qed.

(** ** Indexing and the phase invariant *)

Lemma index_lookup {A} (l : list A) i :
  0 <= i → index l i = l !! Z.to_nat i.
Proof. intros Hi. unfold index. destruct (Z.ltb_spec i 0); [lia|done]. Qed.

Lemma index_in_range {A} (l : list A) i :
  0 <= i < len l → ∃ x, index l i = Some x.
Proof.
  intros [H0 H1]. rewrite index_lookup by done.
  apply lookup_lt_is_Some. unfold len in H1. lia.
Qed.

Lemma index_Some_range {A} (l : list A) i x :
  index l i = Some x → 0 <= i < len l.
Proof.
  unfold index, len. destruct (Z.ltb_spec i 0) as [|Hi]; [done|].
  intros Hx%lookup_lt_Some. lia.
Qed.

Lemma index_0 {A} (l : list A) : index l 0 = l !! 0%nat.
Proof. by rewrite index_lookup. Qed.

(** What one call of [update] does to a timer whose phase index is in
    range: it does not panic, it keeps the program of the timer, and it
    either keeps the index in range or reports completion with the index
    one past the last phase. *)
Lemma update_ok t :
  timer_ok t →
  ∃ t' ns c,
    update t = Some (t', ns, c) ∧
    phases t' = phases t ∧ maxCycles t' = maxCycles t ∧
    isPaused t' = isPaused t ∧
    (c = false → phase_inv t') ∧
    (c = true → currentPhase (state t') = len (phases t')).
Proof.
  intros [Hinv Hfit]. unfold phase_inv, fits_int in *. unfold update.
  destruct (isPaused t) eqn:Hp.
  { eexists _, _, _. rewrite Hp. by_fields. }
  destruct (currentTime (state t) <=? 0).
  2:{ eexists _, _, _. by_fields. }
  destruct (index_in_range (phases t) _ Hinv) as [cur ->].
  destruct (isWork (state t)).
  { eexists _, _, _. by_fields. }
  cbn [set_state set_cycles set_currentPhase state phases maxCycles
       cycles currentPhase].
  assert (Hw : wrap64 (currentPhase (state t) + 1) = currentPhase (state t) + 1).
  { apply wrap64_id. unfold int64_range. lia. }
  destruct (negb (maxCycles t =? -1) && _).
  - rewrite Hw.
    destruct (Z.leb_spec (len (phases t)) (currentPhase (state t) + 1)) as [Hle|Hlt].
    + eexists _, _, _. by_fields.
    + unfold start_work. cbn.
      destruct (index_in_range (phases t) (currentPhase (state t) + 1)) as [ph ->];
        [lia|].
      eexists _, _, _. by_fields.
  - unfold start_work. cbn. destruct (index_in_range (phases t) _ Hinv) as [ph ->].
    eexists _, _, _. by_fields.
Qed.

Lemma update_timer_ok t t' ns :
  timer_ok t → update t = Some (t', ns, false) → timer_ok t'.
Proof.
  intros Hok Hu. destruct (update_ok t Hok) as (t1 & ns1 & c & Hu1 & Hph & _ & _ & Hf & _).
  rewrite Hu in Hu1. injection Hu1 as <- <- <-.
  split; [by apply Hf|]. rewrite Hph. apply Hok.
Qed.

(** ** The scheduler loop and its one-pass description *)

Lemma tick_list_app l1 l2 :
  tick_list (l1 ++ l2) =
    match tick_list l2 with
    | None => None
    | Some (l2', n2) =>
        match tick_list l1 with
        | None => None
        | Some (l1', n1) => Some (l1' ++ l2', n2 ++ n1)
        end
    end.
Proof.
  induction l1 as [|t l1 IH]; cbn [tick_list app].
  - destruct (tick_list l2) as [[l2' n2]|]; [|done]. by rewrite app_nil_r.
  - rewrite IH. destruct (tick_list l2) as [[l2' n2]|]; [|done].
    destruct (tick_list l1) as [[l1' n1]|]; [|done].
    destruct (update t) as [[[t' ns] c]|]; [|done].
    destruct c; by rewrite app_assoc.
Qed.

Lemma tick_list_singleton t :
  tick_list [t] =
    match update t with
    | None => None
    | Some (t', ns, c) => Some (if c : bool then [] else [t'], ns)
    end.
Proof. cbn. by destruct (update t) as [[[t' ns] c]|]. Qed.

(** The loop of the code over the first [length l1] positions, counting
    down, is the one-pass description applied to [l1]; what lies behind is
    not touched. *)
Lemma update_loop_tick_list l1 : ∀ l2 out nd,
  update_loop (length l1) (l1 ++ l2) out nd =
    match tick_list l1 with
    | None => None
    | Some (l1', ns) =>
        Some (l1' ++ l2, out ++ ns, nd || negb (bool_decide (l1 = [])))
    end.
Proof.
  induction l1 as [|t l IH] using rev_ind; intros l2 out nd.
  - cbn. by rewrite app_nil_r, orb_false_r.
  - rewrite length_app, Nat.add_1_r. cbn [update_loop length].
    rewrite <- app_assoc. cbn [app].
    rewrite list_lookup_middle by done.
    rewrite tick_list_app, tick_list_singleton.
    destruct (update t) as [[[t' ns] c]|]; [|done].
    replace (<[length l:=t']> (l ++ t :: l2)) with (l ++ t' :: l2).
    2:{ rewrite insert_app_r_alt by lia. by rewrite Nat.sub_diag. }
    assert (Hne : bool_decide (l ++ [t] = []) = false).
    { apply bool_decide_eq_false. by destruct l. }
    rewrite Hne, orb_true_r.
    destruct c.
    + rewrite take_app_length.
      replace (drop (S (length l)) (l ++ t' :: l2)) with l2.
      2:{ change (t' :: l2) with ([t'] ++ l2). rewrite app_assoc.
          rewrite drop_app_length'; [done|]. rewrite length_app. cbn. lia. }
      rewrite IH. destruct (tick_list l) as [[l' nl]|]; [|done].
      by rewrite app_nil_r, app_assoc.
    + rewrite IH. destruct (tick_list l) as [[l' nl]|]; [|done].
      by rewrite <- !app_assoc.
Qed.

Lemma tick_spec tm :
  tick tm =
    match tick_list (activeTimers tm) with
    | None => None
    | Some (ts, out) =>
        Some (mkTimerManager ts (configs tm)
                (if bool_decide (activeTimers tm = []) then displayChan tm
                 else try_send (displayChan tm) true),
              out)
    end.
Proof.
  unfold tick.
  pose proof (update_loop_tick_list (activeTimers tm) [] [] false) as H.
  rewrite app_nil_r in H. rewrite H.
  destruct (tick_list (activeTimers tm)) as [[ts out]|]; [|done].
  rewrite app_nil_r. cbn. by destruct (bool_decide _).
Qed.

Lemma tick_list_ok ts :
  Forall timer_ok ts →
  ∃ ts' out, tick_list ts = Some (ts', out) ∧ Forall timer_ok ts' ∧
             (length ts' ≤ length ts)%nat.
Proof.
  induction 1 as [|t ts Ht Hts (ts' & out & Hl & Hok & Hlen)]; cbn.
  - by eexists _, _.
  - rewrite Hl. destruct (update_ok t Ht) as (t' & ns & c & Hu & _).
    rewrite Hu. eexists _, _. split; [done|].
    destruct c; [split; [done|lia]|].
    split; [|cbn; lia]. constructor; [|done]. by eapply update_timer_ok.
Qed.

(** ** Completion of a bounded timer *)

(** C2. An unpaused timer with [maxCycles = 1] and exactly one phase, in
    OnBreak with no time remaining and in its first cycle: [update] raises
    the cycle count to 2, moves the phase index past the last phase, sends
    the completion notification and returns true; and a tick of the
    scheduler over a list that holds this timer leaves the list without
    it, the timers before and after it updated as they would be on their
    own, and posts a redraw request. *)
Theorem bounded_single_phase_completes (t : Timer) :
  isPaused t = false → maxCycles t = 1 → length (phases t) = 1%nat →
  isWork (state t) = false → currentTime (state t) <= 0 →
  cycles (state t) = 1 → currentPhase (state t) = 0 →
  let t' := set_state (set_currentPhase 1 (set_cycles 2 (state t))) t in
  let done_msg := notify (name (state t))
                         ("All phases completed: " +:+ notifText (state t)) in
  update t = Some (t', done_msg, true) ∧
  cycles (state t') = 2 ∧ maxCycles t' < cycles (state t') ∧
  currentPhase (state t') = len (phases t') ∧
  ∀ pre post pre' post' n1 n2 cfgs ch,
    tick_list pre = Some (pre', n1) → tick_list post = Some (post', n2) →
    tick (mkTimerManager (pre ++ t :: post) cfgs ch) =
      Some (mkTimerManager (pre' ++ post') cfgs (try_send ch true),
            n2 ++ done_msg ++ n1).
Proof.
  intros Hp Hmax Hlen Hw Htime Hc Hcp t' done_msg.
  assert (Hu : update t = Some (t', done_msg, true)).
  { unfold update. rewrite Hp.
    destruct (Z.leb_spec (currentTime (state t)) 0) as [_|]; [|lia].
    destruct (index_in_range (phases t) (currentPhase (state t))) as [cur ->].
    { unfold len. lia. }
    rewrite Hw. cbn [set_state set_cycles set_currentPhase state phases
                     maxCycles cycles currentPhase name notifText].
    rewrite Hmax, Hc, Hcp. unfold len. rewrite Hlen. cbn.
    subst t' done_msg. unfold set_state, set_currentPhase, set_cycles. cbn.
    by rewrite Hmax. }
  split; [done|]. split; [done|].
  split; [cbn; lia|]. split; [cbn; unfold len; by rewrite Hlen|].
  intros pre post pre' post' n1 n2 cfgs ch Hpre Hpost.
  rewrite tick_spec. cbn [activeTimers configs displayChan].
  rewrite tick_list_app. cbn [tick_list]. rewrite Hpost, Hu, Hpre.
  rewrite bool_decide_eq_false_2 by (by destruct pre).
  by rewrite <- app_assoc.
Qed.

Lemma bounded_single_phase_completes_witness :
  let t := mkTimer (mkTimerState false 0 1 0 "tea" "steep") demo_phases 1 false in
  let other := demo_timer "egg" "boil" 1 (-1) in
  ∃ other' : Timer,
    update other = Some (other', [], false) ∧
    tick (mkTimerManager [other; t; other] [] (make_chan 1)) =
      Some (mkTimerManager [other'; other'] [] (mkChan 1 [true]),
            notify "tea" "All phases completed: steep").
Proof.
  cbn zeta. eexists. split; [reflexivity|].
  refine (proj2 (proj2 (proj2 (proj2
    (bounded_single_phase_completes
       (mkTimer (mkTimerState false 0 1 0 "tea" "steep") demo_phases 1 false)
       eq_refl eq_refl eq_refl eq_refl (Z.le_refl 0) eq_refl eq_refl))))
    [demo_timer "egg" "boil" 1 (-1)] [demo_timer "egg" "boil" 1 (-1)]
    _ _ [] [] [] (make_chan 1) eq_refl eq_refl).
Defined.

(** ** The phase index *)

(** C3, as stated, fails on the call that reports completion: a
    one-phase timer with [maxCycles = 1], in OnBreak at 0 s, satisfies the
    invariant before the call and has its phase index equal to the number
    of phases after it. *)
Lemma C3_completion_counterexample :
  let t := mkTimer (mkTimerState false 0 1 0 "tea" "steep") demo_phases 1 false in
  phases t ≠ [] ∧ phase_inv t ∧
  ∃ t' ns, update t = Some (t', ns, true) ∧ ¬ phase_inv t'.
Proof.
  cbn zeta. split; [done|]. split; [by vm_compute|].
  eexists _, _. split; [reflexivity|].
  unfold phase_inv, len. cbn.
  replace (wrap64 (0 + 1)) with 1 by reflexivity. lia.
Qed.

Lemma timerFromConfig_inv c t : timerFromConfig c = Some t → phase_inv t.
Proof.
  unfold timerFromConfig. destruct (index (Phases c) 0) as [ph|] eqn:Hi; [|done].
  intros [= <-]. unfold phase_inv. cbn. by eapply index_Some_range.
Qed.

Lemma cmd_pause_ok num tm tm' :
  Forall timer_ok (activeTimers tm) → cmd_pause num tm = Some tm' →
  Forall timer_ok (activeTimers tm').
Proof.
  intros Hall. unfold cmd_pause. destruct (valid_num num tm); [|by intros [= <-]].
  destruct (index _ _) as [t|] eqn:Hi; [|done]. intros [= <-]. cbn.
  apply Forall_insert; [done|].
  unfold index in Hi. destruct (num - 1 <? 0); [done|].
  apply (Forall_lookup_1 _ _ _ _ Hall) in Hi. exact Hi.
Qed.

Lemma cmd_reset_ok num tm tm' :
  Forall timer_ok (activeTimers tm) → cmd_reset num tm = Some tm' →
  Forall timer_ok (activeTimers tm').
Proof.
  intros Hall. unfold cmd_reset. destruct (valid_num num tm); [|by intros [= <-]].
  destruct (index _ _) as [t|] eqn:Hi; [|done].
  destruct (index (phases t) 0) as [ph0|]; [|done]. intros [= <-]. cbn.
  apply Forall_insert; [done|].
  unfold index in Hi. destruct (num - 1 <? 0); [done|].
  apply (Forall_lookup_1 _ _ _ _ Hall) in Hi. exact Hi.
Qed.

Lemma slice_to_Some {A} (l k : list A) hi :
  slice_to l hi = Some k → 0 <= hi <= len l ∧ k = take (Z.to_nat hi) l.
Proof.
  unfold slice_to. destruct (Z.leb_spec 0 hi), (Z.leb_spec hi (len l));
    cbn; intros [= <-]; auto.
Qed.

Lemma slice_from_Some {A} (l k : list A) lo :
  slice_from l lo = Some k → 0 <= lo <= len l ∧ k = drop (Z.to_nat lo) l.
Proof.
  unfold slice_from. destruct (Z.leb_spec 0 lo), (Z.leb_spec lo (len l));
    cbn; intros [= <-]; auto.
Qed.

Lemma cmd_delete_ok num w w' :
  Forall timer_ok (activeTimers (manager w)) → cmd_delete num w = Some w' →
  Forall timer_ok (activeTimers (manager w')).
Proof.
  intros Hall. unfold cmd_delete.
  destruct (valid_num num (manager w)); [|by intros [= <-]].
  destruct (slice_to (activeTimers _) _) as [a1|] eqn:H1; [|done].
  destruct (slice_from (activeTimers _) _) as [a2|] eqn:H2; [|done].
  destruct (slice_to (configs _) _) as [c1|]; [|done].
  destruct (slice_from (configs _) _) as [c2|]; [|done].
  cbn. intros [= <-]. cbn.
  apply slice_to_Some in H1 as [_ ->]. apply slice_from_Some in H2 as [_ ->].
  apply Forall_app. split; [by apply Forall_take|by apply Forall_drop].
Qed.

Lemma createTimer_config TrimSpace ToLower fuel r t c r' :
  createTimer TrimSpace ToLower fuel r = Some (t, c, r') →
  timerFromConfig c = Some t.
Proof.
  unfold createTimer.
  destruct (readLine TrimSpace r) as [nm r1].
  destruct (readLine TrimSpace r1) as [tx r2].
  destruct (read_phases _ _ _ _ _) as [[phs r3]|]; [|done].
  destruct (readLine TrimSpace r3) as [cyc r4].
  destruct (index phs 0) as [ph0|] eqn:Hi; [|done].
  intros [= <- <- <-]. unfold timerFromConfig.
  cbn [Phases Name NotifText MaxCycles]. by rewrite Hi.
Qed.

Lemma mapM_timerFromConfig_inv cs ts :
  mapM timerFromConfig cs = Some ts → Forall phase_inv ts.
Proof.
  intros H%mapM_Some. induction H as [|c t cs ts Hc _ IH]; constructor; [|done].
  by eapply timerFromConfig_inv.
Qed.

(** C3 (amended). For a timer whose phase index is in range, [update]
    never indexes out of bounds, and the index is still in range after
    every call that does not report completion; the call that reports
    completion leaves the index equal to the number of phases, and the
    scheduler removes that timer in the same tick. So the invariant
    [0 <= currentPhaseIndex < len(phases)] holds for every timer of the
    active list after every tick and after every manager operation: pause,
    reset, delete, add and the start-up load. *)
Theorem phase_index_in_range_while_active :
  (∀ t, timer_ok t →
     ∃ t' ns c, update t = Some (t', ns, c) ∧
       (c = false → timer_ok t') ∧
       (c = true → currentPhase (state t') = len (phases t'))) ∧
  (∀ tm, Forall timer_ok (activeTimers tm) →
     ∃ tm' out, tick tm = Some (tm', out) ∧
       Forall timer_ok (activeTimers tm')) ∧
  (∀ num tm tm', Forall timer_ok (activeTimers tm) →
     cmd_pause num tm = Some tm' → Forall timer_ok (activeTimers tm')) ∧
  (∀ num tm tm', Forall timer_ok (activeTimers tm) →
     cmd_reset num tm = Some tm' → Forall timer_ok (activeTimers tm')) ∧
  (∀ num w w', Forall timer_ok (activeTimers (manager w)) →
     cmd_delete num w = Some w' →
     Forall timer_ok (activeTimers (manager w'))) ∧
  (∀ TrimSpace ToLower fuel r w w' r',
     Forall phase_inv (activeTimers (manager w)) →
     cmd_add TrimSpace ToLower fuel r w = Some (w', r') →
     Forall phase_inv (activeTimers (manager w'))) ∧
  (∀ EqualFold f tm, startup EqualFold f = Some tm →
     Forall phase_inv (activeTimers tm)).
Proof.
  split; [|split; [|split; [|split; [|split; [|split]]]]].
  - intros t Hok. destruct (update_ok t Hok) as (t' & ns & c & Hu & Hph & _ & _ & Hf & Ht).
    exists t', ns, c. split; [done|]. split; [|done].
    intros Hc. split; [by apply Hf|]. rewrite Hph. apply Hok.
  - intros tm Hall. rewrite tick_spec.
    destruct (tick_list_ok _ Hall) as (ts' & out & -> & Hok & _).
    by eexists _, _.
  - apply cmd_pause_ok.
  - apply cmd_reset_ok.
  - apply cmd_delete_ok.
  - intros TrimSpace ToLower fuel r w w' r' Hall. unfold cmd_add.
    destruct (createTimer _ _ _ _) as [[[t c] r1]|] eqn:Hc; [|done].
    intros [= <- <-]. cbn. apply Forall_app. split; [done|].
    constructor; [|done].
    eapply timerFromConfig_inv, createTimer_config, Hc.
  - intros EqualFold f tm. unfold startup.
    destruct (mapM timerFromConfig _) as [ts|] eqn:Hm; [|done].
    cbn. intros [= <-]. cbn. by eapply mapM_timerFromConfig_inv.
Qed.

Lemma phase_index_in_range_while_active_witness :
  let t := demo_timer "tea" "steep" 1 2 in
  timer_ok t ∧
  ∃ t' ns c, update t = Some (t', ns, c) ∧
    (c = false → timer_ok t') ∧
    (c = true → currentPhase (state t') = len (phases t')).
Proof.
  assert (Hok : timer_ok (demo_timer "tea" "steep" 1 2)).
  { split; unfold phase_inv, fits_int, len; cbn; lia. }
  split; [exact Hok|].
  exact (proj1 phase_index_in_range_while_active _ Hok).
Defined.

(** ** Delete and reset *)

Lemma valid_num_spec num tm :
  valid_num num tm = true ↔ 0 < num <= len (activeTimers tm).
Proof. unfold valid_num. rewrite andb_true_iff. lia. Qed.

Lemma valid_num_lookup num tm :
  valid_num num tm = true →
  ∃ t, activeTimers tm !! Z.to_nat (num - 1) = Some t ∧
       index (activeTimers tm) (num - 1) = Some t.
Proof.
  intros Hv%valid_num_spec.
  destruct (index_in_range (activeTimers tm) (num - 1)) as [t Ht]; [lia|].
  exists t. split; [|done]. by rewrite index_lookup in Ht by lia.
Qed.

Lemma slice_pair_delete {A} (l : list A) num :
  0 < num <= len l →
  slice_to l (num - 1) = Some (take (Z.to_nat (num - 1)) l) ∧
  slice_from l num = Some (drop (S (Z.to_nat (num - 1))) l).
Proof.
  intros Hn. unfold slice_to, slice_from.
  destruct (Z.leb_spec 0 (num - 1)); [|lia].
  destruct (Z.leb_spec (num - 1) (len l)); [|lia].
  destruct (Z.leb_spec 0 num); [|lia].
  destruct (Z.leb_spec num (len l)); [|lia].
  cbn. split; [done|]. do 2 f_equal. lia.
Qed.




(** C8. For a valid 1-based index [num] (every timer having at least one
    phase), the reset command sets the remaining time of the timer at that
    position to the work duration of its phase 0 and changes nothing else:
    that timer keeps [isWork], the cycle count, the phase index, its name
    and text, its phases, [maxCycles] and the paused flag; every other
    timer, the configurations and the redraw channel are as before. *)
Theorem reset_restores_first_work_duration (num : Z) (tm : TimerManager) :
  valid_num num tm = true →
  Forall (λ t, phases t ≠ []) (activeTimers tm) →
  let i := Z.to_nat (num - 1) in
  ∃ t ph0 t' tm',
    activeTimers tm !! i = Some t ∧ phases t !! 0%nat = Some ph0 ∧
    cmd_reset num tm = Some tm' ∧
    activeTimers tm' !! i = Some t' ∧
    currentTime (state t') = WorkDuration ph0 ∧
    isWork (state t') = isWork (state t) ∧
    cycles (state t') = cycles (state t) ∧
    currentPhase (state t') = currentPhase (state t) ∧
    name (state t') = name (state t) ∧
    notifText (state t') = notifText (state t) ∧
    phases t' = phases t ∧ maxCycles t' = maxCycles t ∧
    isPaused t' = isPaused t ∧
    length (activeTimers tm') = length (activeTimers tm) ∧
    (∀ j, j ≠ i → activeTimers tm' !! j = activeTimers tm !! j) ∧
    configs tm' = configs tm ∧ displayChan tm' = displayChan tm.
Proof.
  intros Hv Hne i.
  destruct (valid_num_lookup _ _ Hv) as (t & Ht & Hit). fold i in Ht.
  pose proof (Forall_lookup_1 _ _ _ _ Hne Ht) as Hph.
  destruct (phases t) as [|ph0 rest] eqn:Hphases; [done|].
  exists t, ph0, (set_state (set_currentTime (WorkDuration ph0) (state t)) t).
  unfold cmd_reset. rewrite Hv, Hit, Hphases. cbn [index Z.ltb Z.compare Z.to_nat lookup list_lookup].
  eexists. split; [done|]. split; [done|]. split; [done|].
  cbn [activeTimers configs displayChan]. fold i.
  split; [apply list_lookup_insert_eq; by eapply lookup_lt_Some|].
  repeat split; cbn; try done.
  - apply length_insert.
  - intros j Hj. by apply list_lookup_insert_ne.
Qed.

Lemma reset_restores_first_work_duration_witness :
  let t := mkTimer (mkTimerState false 7 3 0 "tea" "steep") demo_phases 5 true in
  let o := demo_timer "egg" "boil" 1 (-1) in
  ∃ tm' t', cmd_reset 2 (mkTimerManager [o; t; o] [] (make_chan 1)) = Some tm' ∧
    activeTimers tm' !! 1%nat = Some t' ∧
    currentTime (state t') = 2 * Second ∧
    isWork (state t') = false ∧ cycles (state t') = 3 ∧ isPaused t' = true.
Proof.
  cbn zeta.
  destruct (reset_restores_first_work_duration 2
    (mkTimerManager
       [demo_timer "egg" "boil" 1 (-1);
        mkTimer (mkTimerState false 7 3 0 "tea" "steep") demo_phases 5 true;
        demo_timer "egg" "boil" 1 (-1)] [] (make_chan 1)) eq_refl)
    as (t & ph0 & t' & tm' & Ht & Hph & Hr & Ht' & Htime & Hw & Hc & _ & _ & _ & _ & _ & Hp & _).
  { repeat constructor; discriminate. }
  injection Ht as <-. injection Hph as <-.
  exists tm', t'. repeat split; assumption.
Defined.

(** ** The redraw channel *)

Lemma try_send_cap ch v : cap (try_send ch v) = cap ch.
Proof. unfold try_send. by destruct (_ <? _)%nat. Qed.

Lemma try_send_room ch v :
  (pending ch < cap ch)%nat → try_send ch v = mkChan (cap ch) (buf ch ++ [v]).
Proof.
  unfold try_send, pending. intros H.
  by destruct (Nat.ltb_spec (length (buf ch)) (cap ch)); [|lia].
Qed.

Lemma try_send_full ch v : (cap ch ≤ pending ch)%nat → try_send ch v = ch.
Proof.
  unfold try_send, pending. intros H.
  by destruct (Nat.ltb_spec (length (buf ch)) (cap ch)); [lia|].
Qed.

Lemma try_send_pending ch v :
  cap ch = 1%nat → (pending ch ≤ 1)%nat → pending (try_send ch v) = 1%nat.
Proof.
  intros Hcap Hp. destruct (decide (pending ch = 0%nat)) as [H0|H1].
  - rewrite try_send_room by lia. unfold pending in *. cbn.
    rewrite length_app. cbn. lia.
  - rewrite try_send_full by lia. lia.
Qed.

Lemma recv_pending ch v ch' :
  recv ch = Some (v, ch') → cap ch' = cap ch ∧ S (pending ch') = pending ch.
Proof.
  unfold recv, pending. destruct (buf ch) as [|x rest]; [done|].
  by intros [= <- <-].
Qed.

Lemma tick_chan tm tm' out :
  tick tm = Some (tm', out) →
  displayChan tm' =
    if bool_decide (activeTimers tm = []) then displayChan tm
    else try_send (displayChan tm) true.
Proof.
  rewrite tick_spec. destruct (tick_list _) as [[ts o]|]; [|done].
  by intros [= <- <-].
Qed.

Lemma startUpdateLoop_ok n : ∀ tm,
  Forall timer_ok (activeTimers tm) →
  cap (displayChan tm) = 1%nat → (pending (displayChan tm) ≤ 1)%nat →
  ∃ tm', startUpdateLoop n tm = Some tm' ∧
    Forall timer_ok (activeTimers tm') ∧
    cap (displayChan tm') = 1%nat ∧ (pending (displayChan tm') ≤ 1)%nat ∧
    (pending (displayChan tm) = 1%nat → displayChan tm' = displayChan tm).
Proof.
  induction n as [|n IH]; intros tm Hall Hcap Hp; cbn [startUpdateLoop].
  { by exists tm. }
  destruct (tick_list_ok _ Hall) as (ts' & out & Hl & Hok & _).
  pose proof (tick_spec tm) as Ht. rewrite Hl in Ht. rewrite Ht.
  set (ch := if bool_decide (activeTimers tm = []) then displayChan tm
             else try_send (displayChan tm) true).
  assert (Hch : cap ch = 1%nat ∧ (pending ch ≤ 1)%nat ∧
                (pending (displayChan tm) = 1%nat → ch = displayChan tm)).
  { subst ch. destruct (bool_decide _); [done|].
    rewrite try_send_cap. split; [done|].
    split; [by rewrite try_send_pending|].
    intros H1. apply try_send_full. lia. }
  destruct Hch as (Hc1 & Hc2 & Hc3).
  destruct (IH (mkTimerManager ts' (configs tm) ch) Hok Hc1 Hc2)
    as (tm' & -> & Hok' & Hcap' & Hp' & Hsame).
  exists tm'. repeat split; try done.
  intros H1. cbn in Hsame. rewrite Hsame; [by apply Hc3|].
  by rewrite Hc3.
Qed.

(** C9. The redraw channel, made with capacity one, never holds more than
    one pending request: a tick over a non-empty list of timers posts a
    request when none is pending and otherwise drops it, the statement
    completing in both cases; a tick over an empty list posts nothing; a
    drain by the display loop takes the single request away. Hence any
    number [S n] of ticks in a row, the first of them over a non-empty
    list, leave exactly one pending request. *)
Theorem redraw_requests_coalesce (tm : TimerManager) (n : nat) :
  cap (displayChan tm) = 1%nat → (pending (displayChan tm) ≤ 1)%nat →
  Forall timer_ok (activeTimers tm) →
  (∀ tm' out, tick tm = Some (tm', out) →
     cap (displayChan tm') = 1%nat ∧ (pending (displayChan tm') ≤ 1)%nat ∧
     (activeTimers tm = [] → displayChan tm' = displayChan tm) ∧
     (activeTimers tm ≠ [] → pending (displayChan tm) = 0%nat →
        displayChan tm' = mkChan 1 [true]) ∧
     (activeTimers tm ≠ [] → pending (displayChan tm) = 1%nat →
        displayChan tm' = displayChan tm)) ∧
  (∀ tm', drain tm = Some tm' →
     cap (displayChan tm') = 1%nat ∧ pending (displayChan tm') = 0%nat) ∧
  (activeTimers tm ≠ [] →
     ∃ tm', startUpdateLoop (S n) tm = Some tm' ∧
       pending (displayChan tm') = 1%nat).
Proof.
  intros Hcap Hp Hall. split; [|split].
  - intros tm' out Ht. rewrite (tick_chan _ _ _ Ht).
    destruct (decide (activeTimers tm = [])) as [He|Hne].
    + rewrite bool_decide_eq_true_2 by done. repeat split; try done.
    + rewrite bool_decide_eq_false_2 by done.
      rewrite try_send_cap. split; [done|].
      split; [by rewrite try_send_pending|].
      split; [done|]. split.
      * intros _ H0. rewrite try_send_room by lia. rewrite Hcap.
        unfold pending in H0. apply nil_length_inv in H0. by rewrite H0.
      * intros _ H1. apply try_send_full. lia.
  - intros tm'. unfold drain.
    destruct (recv (displayChan tm)) as [[v ch]|] eqn:Hr; [|done].
    intros [= <-]. cbn. apply recv_pending in Hr as [Hc Hs]. split; lia.
  - intros Hne. cbn [startUpdateLoop].
    destruct (tick_list_ok _ Hall) as (ts' & out & Hl & Hok & _).
    pose proof (tick_spec tm) as Ht. rewrite Hl in Ht. rewrite Ht.
    rewrite bool_decide_eq_false_2 by done.
    destruct (startUpdateLoop_ok n (mkTimerManager ts' (configs tm)
                            (try_send (displayChan tm) true)))
      as (tm' & Hn & _ & _ & _ & Hsame); cbn; try done.
    + by rewrite try_send_cap.
    + by rewrite try_send_pending.
    + exists tm'. split; [done|]. cbn in Hsame.
      rewrite Hsame; by rewrite try_send_pending.
Qed.

Lemma redraw_requests_coalesce_witness :
  let tm := mkTimerManager [demo_timer "tea" "steep" 1 (-1)] [] (make_chan 1) in
  ∃ tm', startUpdateLoop 7 tm = Some tm' ∧ pending (displayChan tm') = 1%nat.
Proof.
  cbn zeta.
  refine (proj2 (proj2 (redraw_requests_coalesce
    (mkTimerManager [demo_timer "tea" "steep" 1 (-1)] [] (make_chan 1)) 6
    eq_refl _ _)) _).
  - cbn. lia.
  - repeat constructor; unfold phase_inv, fits_int, len; cbn; lia.
  - discriminate.
Defined.

(** ** Freshly built timers *)

Lemma read_phases_nonempty TrimSpace ToLower fuel : ∀ phs r phs' r',
  read_phases TrimSpace ToLower fuel phs r = Some (phs', r') → phs' ≠ [].
Proof.
  induction fuel as [|fuel IH]; intros phs r phs' r'; cbn [read_phases]; [done|].
  destruct (readLine TrimSpace r) as [workStr r1].
  destruct (parseDuration TrimSpace workStr) as [workDur|]; [|apply IH].
  destruct (readLine TrimSpace r1) as [breakStr r2].
  destruct (parseDuration TrimSpace breakStr) as [breakDur|]; [|apply IH].
  destruct (readLine TrimSpace r2) as [more r3].
  destruct (String.eqb _ _); [apply IH|].
  intros [= <- <-]. by destruct phs.
Qed.

(** C10. A timer built from a configuration with at least one phase
    starts in Working with the work duration of the first phase
    remaining, in cycle 1, at phase 0 and not paused, and carries the name,
    text, phases and [maxCycles] of the configuration. The timer built
    interactively is the one [timerFromConfig] builds from the
    configuration returned with it, whose phase list is never empty; and
    the interactive construction does return once it has read a name, a
    text, two durations that parse, an answer other than "y" and the cycle
    line. *)
Theorem fresh_timer_initial_state :
  (∀ config, Phases config ≠ [] →
     ∃ t ph0, timerFromConfig config = Some t ∧
       Phases config !! 0%nat = Some ph0 ∧
       isWork (state t) = true ∧
       currentTime (state t) = WorkDuration ph0 ∧
       cycles (state t) = 1 ∧ currentPhase (state t) = 0 ∧
       isPaused t = false ∧
       name (state t) = Name config ∧ notifText (state t) = NotifText config ∧
       phases t = Phases config ∧ maxCycles t = MaxCycles config) ∧
  (∀ TrimSpace ToLower fuel r t c r',
     createTimer TrimSpace ToLower fuel r = Some (t, c, r') →
     Phases c ≠ [] ∧ timerFromConfig c = Some t) ∧
  (∀ TrimSpace ToLower fuel nm txt work brk more cyc r dw db,
     parseDuration TrimSpace (TrimSpace work) = inl dw →
     parseDuration TrimSpace (TrimSpace brk) = inl db →
     ToLower (TrimSpace more) ≠ "y" →
     ∃ t c, createTimer TrimSpace ToLower (S fuel)
              (nm :: txt :: work :: brk :: more :: cyc :: r) = Some (t, c, r) ∧
       Phases c = [mkTimerPhase dw db] ∧
       Name c = TrimSpace nm ∧ NotifText c = TrimSpace txt).
Proof.
  split; [|split].
  - intros config Hne. unfold timerFromConfig. rewrite index_0.
    destruct (Phases config) as [|ph0 rest] eqn:Hph; [done|].
    cbn. eexists _, ph0. repeat split; by rewrite ?Hph.
  - intros TrimSpace ToLower fuel r t c r' Hc.
    split; [|by eapply createTimer_config].
    revert Hc. unfold createTimer.
    destruct (readLine TrimSpace r) as [nm r1].
    destruct (readLine TrimSpace r1) as [tx r2].
    destruct (read_phases _ _ _ _ _) as [[phs r3]|] eqn:Hr; [|done].
    destruct (readLine TrimSpace r3) as [cyc r4].
    destruct (index phs 0) as [ph0|]; [|done].
    intros [= <- <- <-]. cbn. by eapply read_phases_nonempty.
  - intros TrimSpace ToLower fuel nm txt work brk more cyc r dw db Hw Hb Hmore.
    unfold createTimer. cbn [readLine read_phases]. rewrite Hw, Hb.
    apply String.eqb_neq in Hmore. rewrite Hmore. cbn [app index].
    eexists _, _. split; [reflexivity|]. done.
Qed.

Lemma fresh_timer_initial_state_witness :
  let config := mkTimerConfig "tea" "steep" demo_phases 3 in
  Phases config ≠ [] ∧
  ∃ t ph0, timerFromConfig config = Some t ∧
    Phases config !! 0%nat = Some ph0 ∧
    isWork (state t) = true ∧
    currentTime (state t) = WorkDuration ph0 ∧
    cycles (state t) = 1 ∧ currentPhase (state t) = 0 ∧
    isPaused t = false ∧
    name (state t) = Name config ∧ notifText (state t) = NotifText config ∧
    phases t = Phases config ∧ maxCycles t = MaxCycles config.
Proof.
  cbn zeta.
  assert (Hne : Phases (mkTimerConfig "tea" "steep" demo_phases 3) ≠ [])
    by discriminate.
  split; [exact Hne|].
  exact (proj1 fresh_timer_initial_state _ Hne).
Defined.

(** ** Integer literals *)

Lemma is_digit_val c : is_digit c = true → 0 <= byte c - 48 <= 9.
Proof. unfold is_digit. rewrite andb_true_iff. lia. Qed.

Lemma decimal_ge s : ∀ n, 0 <= n → all_digits s = true → n <= decimal n s.
Proof.
  induction s as [|c r IH]; intros n Hn; cbn [all_digits decimal]; [lia|].
  rewrite andb_true_iff. intros [Hc Hr]. apply is_digit_val in Hc.
  specialize (IH (n * 10 + (byte c - 48)) ltac:(lia) Hr). lia.
Qed.

(** The digit loop accepts exactly the digit strings whose value fits the
    unsigned register. *)
Lemma parse_uint_spec s : ∀ n v, 0 <= n < 2 ^ 64 →
  parse_uint n s = inl v ↔
  all_digits s = true ∧ decimal n s < 2 ^ 64 ∧ v = decimal n s.
Proof.
  induction s as [|c r IH]; intros n v Hn; cbn [parse_uint all_digits decimal].
  - split; [intros [= <-]|intros (_ & _ & ->)]; [|done].
    split; [done|]. split; [lia|done].
  - destruct (is_digit c) eqn:Hc; cbn [andb].
    2:{ split; [done|]. by intros [? _]. }
    pose proof (is_digit_val c Hc) as Hd.
    destruct (Z.ltb_spec (n * 10 + (byte c - 48)) (2 ^ 64)) as [Hlt|Hge].
    + apply IH. lia.
    + split; [done|]. intros (Hr & Hb & _).
      pose proof (decimal_ge r (n * 10 + (byte c - 48)) ltac:(lia) Hr). lia.
Qed.

Lemma is_digit_not_sign c :
  is_digit c = true →
  Ascii.eqb c "-"%char = false ∧ Ascii.eqb c "+"%char = false.
Proof.
  intros Hc. split.
  - destruct (Ascii.eqb_spec c "-"%char) as [->|]; [discriminate Hc|done].
  - destruct (Ascii.eqb_spec c "+"%char) as [->|]; [discriminate Hc|done].
Qed.

(** [Atoi] succeeds exactly on the integer literals of the range of
    [int], with their value. *)
Lemma Atoi_spec s z : Atoi s = inl z ↔ IntLiteral s z.
Proof.
  assert (H0 : 0 <= 0 < 2 ^ 64) by lia.
  split.
  - destruct s as [|c r]; [done|]. unfold Atoi.
    destruct (Ascii.eqb_spec c "-"%char) as [->|Hm]; cbn [orb].
    + destruct r as [|c1 r1]; [done|].
      destruct (parse_uint 0 (String c1 r1)) as [un|] eqn:Hp; [|done].
      apply parse_uint_spec in Hp as (Hd & _ & ->); [|done].
      destruct (Z.leb_spec (decimal 0 (String c1 r1)) (2 ^ 63)); [|done].
      intros [= <-]. by apply lit_minus.
    + destruct (Ascii.eqb_spec c "+"%char) as [->|Hpl].
      * destruct r as [|c1 r1]; [done|].
        destruct (parse_uint 0 (String c1 r1)) as [un|] eqn:Hp; [|done].
        apply parse_uint_spec in Hp as (Hd & _ & ->); [|done].
        destruct (Z.ltb_spec (decimal 0 (String c1 r1)) (2 ^ 63)); [|done].
        intros [= <-]. by apply lit_plus.
      * destruct (parse_uint 0 (String c r)) as [un|] eqn:Hp; [|done].
        apply parse_uint_spec in Hp as (Hd & _ & ->); [|done].
        destruct (Z.ltb_spec (decimal 0 (String c r)) (2 ^ 63)); [|done].
        intros [= <-]. by apply lit_plain.
  - intros [ds Hne Hd Hb|ds Hne Hd Hb|ds Hne Hd Hb].
    + destruct ds as [|c r]; [done|]. unfold Atoi.
      pose proof Hd as Hc. cbn [all_digits] in Hc.
      apply andb_true_iff in Hc as [Hc _].
      destruct (is_digit_not_sign c Hc) as [-> ->]. cbn [orb].
      assert (Hp : parse_uint 0 (String c r) = inl (decimal 0 (String c r))).
      { apply parse_uint_spec; [done|]. repeat split; [done|lia]. }
      rewrite Hp. by destruct (Z.ltb_spec (decimal 0 (String c r)) (2 ^ 63)); [|lia].
    + destruct ds as [|c r]; [done|]. unfold Atoi. cbn [Ascii.eqb Bool.eqb orb].
      assert (Hp : parse_uint 0 (String c r) = inl (decimal 0 (String c r))).
      { apply parse_uint_spec; [done|]. repeat split; [done|lia]. }
      rewrite Hp.
      by destruct (Z.ltb_spec (decimal 0 (String c r)) (2 ^ 63)); [|lia].
    + destruct ds as [|c r]; [done|]. unfold Atoi. cbn [Ascii.eqb Bool.eqb orb].
      assert (Hp : parse_uint 0 (String c r) = inl (decimal 0 (String c r))).
      { apply parse_uint_spec; [done|]. repeat split; [done|lia]. }
      rewrite Hp.
      by destruct (Z.leb_spec (decimal 0 (String c r)) (2 ^ 63)); [|lia].
Qed.

(** ** Splitting at the separator *)

Lemma Split_nonempty s sep : Split s sep ≠ [].
Proof.
  destruct s as [|c r]; cbn; [done|].
  destruct (Ascii.eqb c sep); [done|]. by destruct (Split r sep).
Qed.

Lemma Split_one s sep b :
  Split s sep = [b] → s = b ∧ Contains s sep = false.
Proof.
  revert b. induction s as [|c r IH]; intros b; cbn.
  - by intros [= <-].
  - destruct (Ascii.eqb c sep).
    + intros [= _ Hr]. by apply Split_nonempty in Hr.
    + pose proof (Split_nonempty r sep) as Hne.
      destruct (Split r sep) as [|p ps]; [done|].
      intros [= <- ->]. destruct (IH p eq_refl) as [-> ->]. done.
Qed.

Lemma Split_two s sep a b :
  Split s sep = [a; b] →
  s = a +:+ String sep b ∧ Contains a sep = false ∧ Contains b sep = false.
Proof.
  revert a. induction s as [|c r IH]; intros a; cbn; [done|].
  destruct (Ascii.eqb_spec c sep) as [->|Hne].
  - intros [= <- Hr]. apply Split_one in Hr as [-> Hb]. done.
  - pose proof (Split_nonempty r sep) as Hr.
    destruct (Split r sep) as [|p ps]; [done|].
    intros [= <- ->]. destruct (IH p eq_refl) as (-> & Hp & Hb).
    cbn. split; [done|]. split; [|done].
    by destruct (Ascii.eqb_spec c sep).
Qed.

Lemma Split_no_sep s sep : Contains s sep = false → Split s sep = [s].
Proof.
  induction s as [|c r IH]; cbn; [done|].
  destruct (Ascii.eqb c sep); [done|]. cbn. intros Hr. by rewrite IH.
Qed.

Lemma append_nil_l s : EmptyString +:+ s = s.
Proof. reflexivity. Qed.

Lemma append_cons c r s : String c r +:+ s = String c (r +:+ s).
Proof. reflexivity. Qed.

Lemma Split_join a b sep :
  Contains a sep = false → Split (a +:+ String sep b) sep = a :: Split b sep.
Proof.
  induction a as [|c r IH]; rewrite ?append_nil_l, ?append_cons;
    cbn [Split Contains].
  - intros _. by rewrite Ascii.eqb_refl.
  - destruct (Ascii.eqb c sep); [done|]. cbn [orb]. intros Hr. by rewrite IH.
Qed.

(** ** The duration parser *)

Lemma duration_sum_wrap m n :
  wrap64 (wrap64 (m * Minute) + wrap64 (n * Second)) =
  wrap64 (m * Minute + n * Second).
Proof. by rewrite wrap64_add_l, wrap64_add_r. Qed.

(** C5, as stated, fails for large numbers: "153722868" is an integer
    literal and is accepted, but the duration returned is negative, not
    153722868 minutes, because the product leaves the 64-bit range. *)
Lemma C5_overflow_counterexample :
  Contains "153722868" ":"%char = false ∧
  IntLiteral "153722868" 153722868 ∧
  parseDuration ascii_TrimSpace "153722868" = inl (-9223371993709551616) ∧
  -9223371993709551616 ≠ 153722868 * Minute.
Proof.
  split; [reflexivity|]. split; [|split; [reflexivity|done]].
  apply (lit_plain "153722868"); [done|reflexivity|reflexivity].
Qed.

(** C5 (amended). Let [s] be the trimmed input. If [s] contains [":"],
    [parseDuration] succeeds exactly when [s] is [MM:SS] for two integer
    literals with no further [":"], and fails otherwise; if [s] contains no
    [":"], it succeeds exactly when [s] is an integer literal [N], and
    fails otherwise. The duration returned is [MM] minutes plus [SS]
    seconds (or [N] minutes) as a 64-bit nanosecond count, that is reduced
    modulo 2^64 into the signed range; it is the exact amount whenever that
    amount lies in the range. In particular "5" gives 5 minutes, "1:30"
    gives 90 seconds, and "bad" and "1:2:3" fail. *)
Theorem parseDuration_spec (TrimSpace : string → string) (input : string) :
  let s := TrimSpace input in
  (Contains s ":"%char = true →
     ∀ d, parseDuration TrimSpace input = inl d ↔
       ∃ mm ss m n,
         s = mm +:+ String ":"%char ss ∧
         Contains mm ":"%char = false ∧ Contains ss ":"%char = false ∧
         IntLiteral mm m ∧ IntLiteral ss n ∧
         d = wrap64 (m * Minute + n * Second)) ∧
  (Contains s ":"%char = false →
     ∀ d, parseDuration TrimSpace input = inl d ↔
       ∃ m, IntLiteral s m ∧ d = wrap64 (m * Minute)) ∧
  (∀ m n, int64_range (m * Minute + n * Second) →
     wrap64 (m * Minute + n * Second) = m * Minute + n * Second) ∧
  (s = "5" → parseDuration TrimSpace input = inl (5 * Minute)) ∧
  (s = "1:30" → parseDuration TrimSpace input = inl (90 * Second)) ∧
  (s = "bad" → parseDuration TrimSpace input = inr (ErrAtoi ErrSyntax)) ∧
  (s = "1:2:3" → parseDuration TrimSpace input = inr ErrInvalidFormat).
Proof.
  intros s. unfold parseDuration. fold s.
  split; [|split; [|split; [|split; [|split; [|split]]]]].
  - intros ->. intros d. split.
    + destruct (Split s ":"%char) as [|p0 [|p1 [|p2 ps]]] eqn:Hs; try done.
      apply Split_two in Hs as (Hs & Hp0 & Hp1).
      destruct (Atoi p0) as [m|] eqn:Hm; [|done].
      destruct (Atoi p1) as [n|] eqn:Hn; [|done].
      intros [= <-]. exists p0, p1, m, n.
      rewrite duration_sum_wrap. by rewrite <- !Atoi_spec.
    + intros (mm & ss & m & n & Hs & Hmm & Hss & Hm & Hn & ->).
      rewrite Hs, Split_join, (Split_no_sep ss) by done.
      apply Atoi_spec in Hm, Hn. rewrite Hm, Hn.
      by rewrite duration_sum_wrap.
  - intros ->. intros d. split.
    + destruct (Atoi s) as [m|] eqn:Hm; [|done].
      intros [= <-]. exists m. by rewrite <- Atoi_spec.
    + intros (m & Hm & ->). apply Atoi_spec in Hm. by rewrite Hm.
  - intros m n. apply wrap64_id.
  - by intros ->.
  - by intros ->.
  - by intros ->.
  - by intros ->.
Qed.

Lemma parseDuration_spec_witness :
  Contains (ascii_TrimSpace " 1:30 ") ":"%char = true ∧
  parseDuration ascii_TrimSpace " 1:30 " = inl (90 * Second).
Proof.
  split; [reflexivity|].
  exact (proj1 (proj2 (proj2 (proj2 (proj2
    (parseDuration_spec ascii_TrimSpace " 1:30 "))))) eq_refl).
Defined.

(** ** Saving and loading *)

(** One step of [coerceUTF8], by the class of the leading byte. *)
Lemma coerceUTF8_ascii c0 r0 :
  first (byte c0) = LeadAscii →
  coerceUTF8 (String c0 r0) = String c0 (coerceUTF8 r0).
Proof. intros H0. cbn [coerceUTF8]. by rewrite H0. Qed.

Lemma coerceUTF8_multi c0 r0 size lo hi :
  first (byte c0) = LeadMulti (S (S size)) lo hi →
  coerceUTF8 (String c0 r0) =
    match r0 with
    | EmptyString => replacement +:+ coerceUTF8 r0
    | String c1 r1 =>
        if between lo hi c1 then
          match size with
          | O => String c0 (String c1 (coerceUTF8 r1))
          | S size' =>
              match r1 with
              | EmptyString => replacement +:+ coerceUTF8 r0
              | String c2 r2 =>
                  if between 128 191 c2 then
                    match size' with
                    | O => String c0 (String c1 (String c2 (coerceUTF8 r2)))
                    | S _ =>
                        match r2 with
                        | EmptyString => replacement +:+ coerceUTF8 r0
                        | String c3 r3 =>
                            if between 128 191 c3 then
                              String c0 (String c1 (String c2
                                (String c3 (coerceUTF8 r3))))
                            else replacement +:+ coerceUTF8 r0
                        end
                    end
                  else replacement +:+ coerceUTF8 r0
              end
          end
        else replacement +:+ coerceUTF8 r0
    end.
Proof.
  intros H0. cbn [coerceUTF8]. rewrite H0. by destruct size as [|[|size]].
Qed.

(** Coercion to valid UTF-8 leaves well-formed text alone. *)
Lemma coerceUTF8_valid s : ValidUTF8 s → coerceUTF8 s = s.
Proof.
  induction 1 as [|c0 r H0 _ IH|c0 c1 lo hi r H0 H1 _ IH
                  |c0 c1 c2 lo hi r H0 H1 H2 _ IH
                  |c0 c1 c2 c3 lo hi r H0 H1 H2 H3 _ IH].
  - reflexivity.
  - by rewrite (coerceUTF8_ascii _ _ H0), IH.
  - by rewrite (coerceUTF8_multi _ _ _ _ _ H0), H1, IH.
  - by rewrite (coerceUTF8_multi _ _ _ _ _ H0), H1, H2, IH.
  - by rewrite (coerceUTF8_multi _ _ _ _ _ H0), H1, H2, H3, IH.
Qed.

Lemma UnmarshalJSON_MarshalJSON EqualFold p :
  phase_in_range p → UnmarshalJSON EqualFold (MarshalJSON p) = Some p.
Proof.
  intros [Hw%in_int64_spec Hb%in_int64_spec]. destruct p as [w b].
  cbn in Hw, Hb. cbn. rewrite Hw. cbn. rewrite Hb. done.
Qed.

Lemma decode_config_encode EqualFold c :
  config_in_range c →
  decode_config EqualFold (encode_config c) =
    Some (mkTimerConfig (coerceUTF8 (coerceUTF8 (Name c)))
            (coerceUTF8 (coerceUTF8 (NotifText c))) (Phases c) (MaxCycles c)).
Proof.
  intros [Hm%in_int64_spec Hph]. destruct c as [nm tx phs mx].
  cbn [MaxCycles Phases Name NotifText] in *.
  assert (Hps : decode_slice (UnmarshalJSON EqualFold) (JArr (MarshalJSON <$> phs))
                = Some phs).
  { cbn [decode_slice]. apply mapM_fmap_Forall_Some.
    eapply Forall_impl; [exact Hph|]. intros p Hp.
    by apply UnmarshalJSON_MarshalJSON. }
  unfold encode_config, decode_config.
  cbn [fold_members Name NotifText Phases MaxCycles].
  unfold decode_config_member at 1. cbn.
  cbn [decode_slice] in Hps. rewrite Hps. cbn. by rewrite Hm.
Qed.

Lemma decode_configs_encode EqualFold cs :
  Forall config_in_range cs → Forall config_utf8 cs →
  decode_configs EqualFold (encode_configs cs) = Some cs.
Proof.
  intros Hr Hu. unfold decode_configs, encode_configs. cbn [decode_slice].
  apply mapM_fmap_Forall_Some.
  rewrite Forall_forall in Hr, Hu. apply Forall_forall. intros c Hc.
  rewrite decode_config_encode by auto.
  destruct (Hu c Hc) as [Hn Ht]. destruct c as [nm tx phs mx]. cbn in *.
  by rewrite !(coerceUTF8_valid nm), !(coerceUTF8_valid tx).
Qed.

(** C6, as stated, fails for a name that is not well-formed UTF-8: the
    single byte [FF] is saved as U+FFFD and loaded as the three bytes
    [EF BF BD]. *)
Lemma C6_invalid_utf8_counterexample :
  let c := mkTimerConfig (String (ascii_of_N 255) EmptyString) "steep"
                         demo_phases (-1) in
  config_in_range c ∧
  loadTimerConfigs no_fold (saveTimerConfigs [c]) =
    inl [mkTimerConfig replacement "steep" demo_phases (-1)] ∧
  loadTimerConfigs no_fold (saveTimerConfigs [c]) ≠ inl [c].
Proof.
  cbn zeta. split; [|split; [reflexivity|discriminate]].
  split; [by vm_compute|].
  repeat constructor; by vm_compute.
Qed.

(** C6 (amended). For every sequence of configurations whose names and
    notification texts are well-formed UTF-8 (the numbers being [int64]
    values, as their Go types say), saving the sequence and loading the
    file again gives back the same sequence: the same names, texts, phases
    and [maxCycles]. Each phase is written as its two nanosecond counts
    as integers and read back as the same two integers. *)
Theorem save_load_roundtrip (EqualFold : string → string → bool)
    (cs : list TimerConfig) :
  Forall config_in_range cs → Forall config_utf8 cs →
  loadTimerConfigs EqualFold (saveTimerConfigs cs) = inl cs ∧
  (∀ c p, c ∈ cs → p ∈ Phases c →
     MarshalJSON p = JObj [("WorkDuration", JInt (WorkDuration p));
                           ("BreakDuration", JInt (BreakDuration p))] ∧
     UnmarshalJSON EqualFold (MarshalJSON p) = Some p).
Proof.
  intros Hr Hu. split.
  - unfold loadTimerConfigs, saveTimerConfigs.
    by rewrite decode_configs_encode.
  - intros c p Hc Hp. split; [done|].
    apply UnmarshalJSON_MarshalJSON.
    rewrite Forall_forall in Hr. destruct (Hr c Hc) as [_ Hps].
    rewrite Forall_forall in Hps. by apply Hps.
Qed.

Lemma save_load_roundtrip_witness :
  let cs := [mkTimerConfig "tea" "steep" demo_phases 3;
             mkTimerConfig "egg" "boil"
               [mkTimerPhase (3 * Minute) 0; mkTimerPhase (- 1) (2 ^ 63 - 1)] (-1)] in
  loadTimerConfigs no_fold (saveTimerConfigs cs) = inl cs.
Proof.
  cbn zeta.
  refine (proj1 (save_load_roundtrip no_fold _ _ _)).
  - repeat constructor; by vm_compute.
  - repeat constructor; cbn; repeat (apply valid_1; [reflexivity|]); apply valid_nil.
Defined.

(** * Further properties of the timer *)

Lemma updates_app n m t :
  updates (n + m) t =
    match updates n t with
    | None => None
    | Some (t1, ns1, cs1) =>
        match updates m t1 with
        | None => None
        | Some (t2, ns2, cs2) => Some (t2, ns1 ++ ns2, cs1 ++ cs2)
        end
    end.
Proof.
  revert t. induction n as [|n IH]; intros t; cbn [updates Nat.add].
  - by destruct (updates m t) as [[[t2 ns2] cs2]|].
  - destruct (update t) as [[[t0 ns0] c0]|]; [|done].
    rewrite IH. destruct (updates n t0) as [[[t1 ns1] cs1]|]; [|done].
    destruct (updates m t1) as [[[t2 ns2] cs2]|]; [|done].
    by rewrite app_assoc.
Qed.

Lemma update_running t :
  isPaused t = false → 0 < currentTime (state t) < 2 ^ 63 →
  update t = Some (set_state (set_currentTime (currentTime (state t) - Second)
                                (state t)) t, [], false).
Proof.
  intros Hp Ht. unfold update. rewrite Hp.
  destruct (Z.leb_spec (currentTime (state t)) 0); [lia|].
  rewrite wrap64_id; [done|]. unfold int64_range, Second. lia.
Qed.

Lemma countdown_aux k : ∀ t,
  isPaused t = false →
  - Second < currentTime (state t) < 2 ^ 63 →
  Z.of_nat k * Second < currentTime (state t) + Second →
  updates k t =
    Some (set_state (set_currentTime (currentTime (state t) - Z.of_nat k * Second)
                       (state t)) t,
          [], replicate k false).
Proof.
  induction k as [|k IH]; intros t Hp Hr Hk.
  - cbn [updates replicate]. change (Z.of_nat 0 * Second) with 0.
    rewrite Z.sub_0_r. by destruct t as [[w ct c p nm tx] ps m pa].
  - cbn [updates]. rewrite update_running; [|done|unfold Second in *; lia].
    rewrite IH; cbn [set_state set_currentTime state currentTime isPaused];
      [|done|unfold Second in *; lia..].
    do 3 f_equal. unfold set_state, set_currentTime. cbn. do 2 f_equal. lia.
Qed.

(** X1. While time remains, [update] only counts down: for an unpaused
    timer, [k] calls in a row, each of which finds a positive remaining
    time, take exactly [k] seconds off the remaining time and change
    nothing else; no notification is sent and every call returns false. *)
Theorem countdown (t : Timer) (k : nat) :
  isPaused t = false →
  0 <= currentTime (state t) < 2 ^ 63 →
  Z.of_nat k * Second < currentTime (state t) + Second →
  updates k t =
    Some (set_state (set_currentTime (currentTime (state t) - Z.of_nat k * Second)
                       (state t)) t,
          [], replicate k false).
Proof.
  intros Hp Hr Hk. apply countdown_aux; [done| |done]. unfold Second. lia.
Qed.

Lemma countdown_witness :
  updates 3 (mkTimer (mkTimerState true (5 * Second) 1 0 "tea" "steep")
                     demo_phases (-1) false) =
    Some (mkTimer (mkTimerState true (2 * Second) 1 0 "tea" "steep")
                  demo_phases (-1) false, [], [false; false; false]).
Proof.
  refine (countdown (mkTimer (mkTimerState true (5 * Second) 1 0 "tea" "steep")
                       demo_phases (-1) false) 3 eq_refl _ _).
  - by vm_compute.
  - by vm_compute.
Defined.

Lemma update_frame t t' ns c :
  update t = Some (t', ns, c) →
  phases t' = phases t ∧ maxCycles t' = maxCycles t ∧
  isPaused t' = isPaused t ∧
  name (state t') = name (state t) ∧
  notifText (state t') = notifText (state t) ∧
  Forall (λ n, title n = name (state t)) ns.
Proof.
  unfold update, start_work.
  repeat match goal with
         | |- context [if ?b then _ else _] => destruct b eqn:?
         | |- context [match index ?l ?i with _ => _ end] => destruct (index l i)
         end;
    intros [= <- <- <-]; repeat split; repeat constructor; by cbn.
Qed.

(** X2. Whatever [update] does, it leaves the program of the timer
    alone: the phases, [maxCycles], the paused flag, the name and the
    notification text are the same after the call, and every notification
    it sends carries the name of the timer as its title. *)
Theorem update_keeps_program (t t' : Timer) (ns : list Notification) (c : bool) :
  update t = Some (t', ns, c) →
  phases t' = phases t ∧ maxCycles t' = maxCycles t ∧
  isPaused t' = isPaused t ∧
  name (state t') = name (state t) ∧
  notifText (state t') = notifText (state t) ∧
  Forall (λ n, title n = name (state t)) ns.
Proof.
  unfold update, start_work.
  destruct (isPaused t) eqn:Hp; [by intros [= <- <- <-]|].
  destruct (currentTime (state t) <=? 0);
    [|intros [= <- <- <-]; repeat split; by cbn].
  destruct (index (phases t) (currentPhase (state t))) as [cur|]; [|done].
  destruct (isWork (state t)).
  { intros [= <- <- <-]. repeat split; cbn; try done. by repeat constructor. }
  cbv zeta. destruct (_ && _).
  - destruct (_ <=? _).
    + intros [= <- <- <-]. repeat split; cbn; try done. by repeat constructor.
    + destruct (index _ _) as [ph|]; [|done].
      intros [= <- <- <-]. repeat split; cbn; try done. by repeat constructor.
  - destruct (index _ _) as [ph|]; [|done].
    intros [= <- <- <-]. repeat split; cbn; try done. by repeat constructor.
Qed.

Lemma update_keeps_program_witness :
  ∃ t' ns c,
    update (mkTimer (mkTimerState true 0 1 0 "tea" "steep") demo_phases 2 false)
      = Some (t', ns, c) ∧
    phases t' = demo_phases ∧ maxCycles t' = 2 ∧
    Forall (λ n, title n = "tea") ns.
Proof.
  eexists _, _, _. split; [reflexivity|].
  destruct (update_keeps_program
    (mkTimer (mkTimerState true 0 1 0 "tea" "steep") demo_phases 2 false)
    _ _ _ eq_refl) as (Hph & Hm & _ & _ & _ & Hns).
  split; [exact Hph|]. split; [exact Hm|exact Hns].
Defined.

Lemma unlimited_step t :
  maxCycles t = -1 → timer_ok t →
  ∃ t' ns, update t = Some (t', ns, false) ∧ maxCycles t' = -1 ∧ timer_ok t'.
Proof.
  intros Hm Hok.
  destruct (update_ok t Hok) as (t1 & ns1 & c & Hu & Hph & Hmx & _ & Hf & _).
  assert (c = false) as ->.
  { revert Hu. unfold update, start_work. cbv zeta.
    cbn [maxCycles set_state]. rewrite Hm.
    change (negb (-1 =? -1)) with false. cbn [andb].
    repeat match goal with
           | |- context [if ?b then _ else _] => destruct b
           | |- context [match index ?l ?i with _ => _ end] => destruct (index l i)
           end; try done; by intros [= _ _ <-]. }
  exists t1, ns1. split; [done|]. split; [by rewrite Hmx|].
  split; [by apply Hf|]. rewrite Hph. apply Hok.
Qed.

(** X3. A timer with unlimited cycles ([maxCycles = -1]) never reports
    completion: started with its phase index in range, any number of calls
    of [update] all return false, and the index is in range afterwards. *)
Theorem unlimited_never_completes (t : Timer) (n : nat) :
  maxCycles t = -1 → timer_ok t →
  ∃ t' ns, updates n t = Some (t', ns, replicate n false) ∧
           maxCycles t' = -1 ∧ timer_ok t'.
Proof.
  revert t. induction n as [|n IH]; intros t Hm Hok; cbn [updates replicate].
  { by eexists _, _. }
  destruct (unlimited_step t Hm Hok) as (t1 & ns1 & -> & Hm1 & Hok1).
  destruct (IH t1 Hm1 Hok1) as (t' & ns & -> & Hm' & Hok').
  by eexists _, _.
Qed.

Lemma unlimited_never_completes_witness :
  ∃ t' ns, updates 40 (demo_timer "tea" "steep" 1 (-1))
             = Some (t', ns, replicate 40 false) ∧ maxCycles t' = -1.
Proof.
  destruct (unlimited_never_completes (demo_timer "tea" "steep" 1 (-1)) 40 eq_refl)
    as (t' & ns & Hu & Hm & _).
  { split; unfold phase_inv, fits_int, len; cbn; lia. }
  exists t', ns. exact (conj Hu Hm).
Defined.

(** Case analysis on the branches of [update], with the tests turned into
    propositions. *)
Ltac bool_hyps :=
  repeat match goal with
         | H : (_ && _) = true |- _ => apply andb_true_iff in H as [? ?]
         | H : (_ && _) = false |- _ => apply andb_false_iff in H
         | H : negb _ = true |- _ => apply negb_true_iff in H
         | H : negb _ = false |- _ => apply negb_false_iff in H
         | H : (_ <=? _) = true |- _ => apply Z.leb_le in H
         | H : (_ <=? _) = false |- _ => apply Z.leb_gt in H
         | H : (_ <? _) = true |- _ => apply Z.ltb_lt in H
         | H : (_ <? _) = false |- _ => apply Z.ltb_ge in H
         | H : (_ =? _) = true |- _ => apply Z.eqb_eq in H
         | H : (_ =? _) = false |- _ => apply Z.eqb_neq in H
         end.

Ltac update_cases :=
  unfold update, start_work; cbv zeta;
  cbn [set_state set_cycles set_currentPhase set_currentTime set_isWork
       state phases maxCycles cycles currentPhase isPaused isWork
       currentTime name notifText];
  repeat match goal with
         | |- context [if ?b then _ else _] => destruct b eqn:?
         | |- context [match index ?l ?i with _ => _ end] =>
             destruct (index l i) eqn:?
         end;
  bool_hyps.

Lemma index_elem_of {A} (l : list A) i x : index l i = Some x → x ∈ l.
Proof.
  unfold index. destruct (i <? 0); [done|]. apply list_elem_of_lookup_2.
Qed.

Lemma whole_seconds_pred d :
  whole_seconds d → 0 < d → whole_seconds (d - Second) ∧ wrap64 (d - Second) = d - Second.
Proof.
  unfold whole_seconds, Second. intros [Hr Hm] Hd.
  assert (Hge : 1000000000 <= d).
  { pose proof (Z.div_mod d 1000000000 ltac:(lia)) as Hdm. rewrite Hm in Hdm.
    destruct (Z.le_gt_cases 1 (d / 1000000000)); lia. }
  split; [split; [lia|]|].
  - rewrite Zminus_mod, Hm, Z_mod_same_full. done.
  - apply wrap64_id. unfold int64_range. lia.
Qed.

(** X4. The remaining time stays a whole, non-negative number of
    seconds: if it is one before [update], and the work and break
    durations of all phases are, then it is one after the call, whatever
    branch the call takes. *)
Theorem update_keeps_whole_seconds (t t' : Timer) (ns : list Notification) (c : bool) :
  time_ok t → update t = Some (t', ns, c) → time_ok t'.
Proof.
  intros [Ht Hps]. unfold time_ok.
  assert (Hin : ∀ i cur, index (phases t) i = Some cur → phase_whole cur).
  { intros i cur Hi%index_elem_of. rewrite Forall_forall in Hps. by apply Hps. }
  update_cases; intros [= <- <- <-]; cbn; (split; [|done]);
    try done;
    try (match goal with H : index _ _ = Some _ |- _ => by apply Hin in H as [? ?] end).
  destruct (whole_seconds_pred _ Ht) as [Hw ->]; [lia|done].
Qed.

Lemma update_keeps_whole_seconds_witness :
  ∃ t' ns c,
    update (mkTimer (mkTimerState false 0 1 0 "tea" "steep") demo_phases 3 false)
      = Some (t', ns, c) ∧ time_ok t'.
Proof.
  eexists _, _, _. split; [reflexivity|].
  refine (update_keeps_whole_seconds
    (mkTimer (mkTimerState false 0 1 0 "tea" "steep") demo_phases 3 false)
    _ _ _ _ eq_refl).
  split; [by vm_compute|]. repeat constructor; by vm_compute.
Defined.

(** X5. For a bounded timer the cycle count stays between 1 and
    [maxCycles]: if it is within these bounds before [update], it is
    within them after every call that does not report completion; on the
    call that reports completion it is [maxCycles + 1]. *)
Theorem bounded_cycle_count (t t' : Timer) (ns : list Notification) (c : bool) :
  maxCycles t ≠ -1 → maxCycles t < 2 ^ 63 - 1 →
  1 <= cycles (state t) <= maxCycles t →
  update t = Some (t', ns, c) →
  (c = false → 1 <= cycles (state t') <= maxCycles t') ∧
  (c = true → cycles (state t') = maxCycles t' + 1).
Proof.
  intros Hb Hmax Hc.
  assert (Hw : wrap64 (cycles (state t) + 1) = cycles (state t) + 1).
  { apply wrap64_id. unfold int64_range. lia. }
  update_cases; rewrite ?Hw in *; intros [= <- <- <-]; cbn;
    split; intros; try done; try lia.
  all: destruct_or?; lia.
Qed.

Lemma bounded_cycle_count_witness :
  ∃ t' ns,
    update (mkTimer (mkTimerState false 0 2 0 "tea" "steep") demo_phases 3 false)
      = Some (t', ns, false) ∧ 1 <= cycles (state t') <= maxCycles t'.
Proof.
  eexists _, _. split; [reflexivity|].
  refine (proj1 (bounded_cycle_count
    (mkTimer (mkTimerState false 0 2 0 "tea" "steep") demo_phases 3 false)
    _ _ _ _ _ _ eq_refl) eq_refl).
  - discriminate.
  - by vm_compute.
  - by vm_compute.
Defined.

(** ** How long a bounded timer runs *)

Lemma secs_whole d : whole_seconds d → Z.of_nat (secs d) * Second = d.
Proof.
  unfold whole_seconds, secs, Second. intros [Hr Hm].
  pose proof (Z.div_mod d 1000000000 ltac:(lia)) as Hdm. rewrite Hm in Hdm.
  rewrite Z2Nat.id; [lia|]. apply Z.div_pos; lia.
Qed.

Lemma countdown_to_zero (t : Timer) :
  isPaused t = false → whole_seconds (currentTime (state t)) →
  updates (secs (currentTime (state t))) t =
    Some (set_state (set_currentTime 0 (state t)) t, [],
          replicate (secs (currentTime (state t))) false).
Proof.
  intros Hp Hw. pose proof (secs_whole _ Hw) as Hs. destruct Hw as [Hr _].
  rewrite countdown_aux; [|done|unfold Second; lia|unfold Second in *; lia].
  by rewrite Hs, Z.sub_diag.
Qed.

Lemma index_nat {A} (l : list A) (i : nat) : index l (Z.of_nat i) = l !! i.
Proof. rewrite index_lookup by lia. by rewrite Nat2Z.id. Qed.

Lemma replicate_snoc {A} n (x : A) : replicate n x ++ [x] = replicate (n + 1) x.
Proof. by rewrite replicate_add. Qed.

Section Run.

Variables (ps : list TimerPhase) (m : nat) (nm tx : string).
Hypothesis Hfit : fits_int ps.
Hypothesis Hm : Z.of_nat m < 2 ^ 63 - 1.

Let T := timer_at ps m nm tx.

(** One more call, at zero: the ways a sub-phase ends. *)
Ltac at_zero Hi :=
  unfold T, timer_at, update, start_work; cbv zeta;
  cbn [set_state set_cycles set_currentPhase set_currentTime set_isWork
       state phases maxCycles cycles currentPhase isPaused isWork
       currentTime name notifText];
  change (0 <=? 0) with true; cbv iota;
  rewrite index_nat, Hi.

Lemma zero_work c i cur :
  ps !! i = Some cur →
  update (T true 0 c i) =
    Some (T false (BreakDuration cur) c i, notify nm ("Break: " +:+ tx), false).
Proof. intros Hi. by at_zero Hi. Qed.

Lemma zero_break_more c i cur :
  ps !! i = Some cur → (c < m)%nat →
  update (T false 0 c i) =
    Some (T true (WorkDuration cur) (S c) i, notify nm tx, false).
Proof.
  intros Hi Hc. at_zero Hi.
  rewrite wrap64_id by (unfold int64_range; lia).
  destruct (Z.eqb_spec (Z.of_nat m) (-1)); [lia|].
  destruct (Z.ltb_spec (Z.of_nat m) (Z.of_nat c + 1)); [lia|].
  cbn [negb andb]. by rewrite Nat2Z.inj_succ.
Qed.

Lemma zero_break_next c i cur nxt :
  ps !! i = Some cur → ps !! S i = Some nxt → (m ≤ c)%nat →
  Z.of_nat c < 2 ^ 63 - 1 →
  update (T false 0 c i) =
    Some (T true (WorkDuration nxt) 1 (S i), notify nm tx, false).
Proof.
  intros Hi Hn Hc Hcr. at_zero Hi.
  rewrite wrap64_id by (unfold int64_range; lia).
  destruct (Z.eqb_spec (Z.of_nat m) (-1)); [lia|].
  destruct (Z.ltb_spec (Z.of_nat m) (Z.of_nat c + 1)); [|lia].
  cbn [negb andb].
  pose proof (lookup_lt_Some _ _ _ Hn) as Hlen.
  unfold fits_int, len in Hfit.
  rewrite wrap64_id by (unfold int64_range; lia).
  destruct (Z.leb_spec (len ps) (Z.of_nat i + 1)); [unfold len in *; lia|].
  replace (Z.of_nat i + 1) with (Z.of_nat (S i)) by lia.
  by rewrite index_nat, Hn.
Qed.

Lemma zero_break_done c i cur :
  ps !! i = Some cur → length ps = S i → (m ≤ c)%nat →
  Z.of_nat c < 2 ^ 63 - 1 →
  ∃ t' ns, update (T false 0 c i) = Some (t', ns, true).
Proof.
  intros Hi Hn Hc Hcr. at_zero Hi.
  rewrite wrap64_id by (unfold int64_range; lia).
  destruct (Z.eqb_spec (Z.of_nat m) (-1)); [lia|].
  destruct (Z.ltb_spec (Z.of_nat m) (Z.of_nat c + 1)); [|lia].
  cbn [negb andb].
  unfold fits_int, len in Hfit.
  rewrite wrap64_id by (unfold int64_range; lia).
  destruct (Z.leb_spec (len ps) (Z.of_nat i + 1)); [|unfold len in *; lia].
  by eexists _, _.
Qed.

(** A sub-phase: the countdown and then the call at zero. *)
Lemma run_to_zero w d c i :
  whole_seconds d →
  updates (secs d) (T w d c i) = Some (T w 0 c i, [], replicate (secs d) false).
Proof. intros Hd. by apply (countdown_to_zero (T w d c i)). Qed.

Lemma sub_phase w d c i t' ns b :
  whole_seconds d → update (T w 0 c i) = Some (t', ns, b) →
  updates (secs d + 1) (T w d c i) = Some (t', ns, replicate (secs d) false ++ [b]).
Proof.
  intros Hd Hu. rewrite updates_app, run_to_zero by done.
  cbn [updates]. rewrite Hu. cbn [app]. by rewrite app_nil_r.
Qed.

(** One work and break cycle of phase [i], begun with the work duration
    of the phase on the clock. *)
Lemma cycle_more c i cur :
  ps !! i = Some cur → phase_whole cur → (c < m)%nat →
  ∃ ns, updates (cycle_calls cur) (T true (WorkDuration cur) c i) =
          Some (T true (WorkDuration cur) (S c) i, ns,
                replicate (cycle_calls cur) false).
Proof.
  intros Hi [Hw Hb] Hc. unfold cycle_calls. rewrite updates_app.
  rewrite (sub_phase _ _ _ _ _ _ _ Hw (zero_work c i cur Hi)).
  rewrite (sub_phase _ _ _ _ _ _ _ Hb (zero_break_more c i cur Hi Hc)).
  eexists. by rewrite !replicate_snoc, <- replicate_add.
Qed.

Lemma cycle_next c i cur nxt :
  ps !! i = Some cur → ps !! S i = Some nxt → phase_whole cur →
  (m ≤ c)%nat → Z.of_nat c < 2 ^ 63 - 1 →
  ∃ ns, updates (cycle_calls cur) (T true (WorkDuration cur) c i) =
          Some (T true (WorkDuration nxt) 1 (S i), ns,
                replicate (cycle_calls cur) false).
Proof.
  intros Hi Hn [Hw Hb] Hc Hcr. unfold cycle_calls. rewrite updates_app.
  rewrite (sub_phase _ _ _ _ _ _ _ Hw (zero_work c i cur Hi)).
  rewrite (sub_phase _ _ _ _ _ _ _ Hb (zero_break_next c i cur nxt Hi Hn Hc Hcr)).
  eexists. by rewrite !replicate_snoc, <- replicate_add.
Qed.

Lemma cycle_done c i cur :
  ps !! i = Some cur → length ps = S i → phase_whole cur →
  (m ≤ c)%nat → Z.of_nat c < 2 ^ 63 - 1 →
  ∃ t' ns, updates (cycle_calls cur) (T true (WorkDuration cur) c i) =
             Some (t', ns, replicate (cycle_calls cur - 1) false ++ [true]).
Proof.
  intros Hi Hn [Hw Hb] Hc Hcr. unfold cycle_calls. rewrite updates_app.
  rewrite (sub_phase _ _ _ _ _ _ _ Hw (zero_work c i cur Hi)).
  destruct (zero_break_done c i cur Hi Hn Hc Hcr) as (t' & ns & Hu).
  rewrite (sub_phase _ _ _ _ _ _ _ Hb Hu).
  eexists _, _. f_equal. f_equal.
  rewrite replicate_snoc, app_assoc, <- replicate_add. do 2 f_equal. lia.
Qed.

(** The rest of a phase from the start of cycle [c]: [m - c + 1] cycles. *)
Lemma phase_next k : ∀ c i cur nxt,
  ps !! i = Some cur → ps !! S i = Some nxt → phase_whole cur →
  (1 ≤ c)%nat → (c + k = m)%nat →
  ∃ ns, updates (S k * cycle_calls cur) (T true (WorkDuration cur) c i) =
          Some (T true (WorkDuration nxt) 1 (S i), ns,
                replicate (S k * cycle_calls cur) false).
Proof.
  induction k as [|k IH]; intros c i cur nxt Hi Hn Hcur Hc Hk.
  - rewrite Nat.mul_1_l. apply cycle_next; try done; lia.
  - replace (S (S k) * cycle_calls cur)%nat
      with (cycle_calls cur + S k * cycle_calls cur)%nat by lia.
    rewrite updates_app.
    destruct (cycle_more c i cur Hi Hcur ltac:(lia)) as [ns1 ->].
    destruct (IH (S c) i cur nxt Hi Hn Hcur ltac:(lia) ltac:(lia)) as [ns2 ->].
    eexists. by rewrite <- replicate_add.
Qed.

Lemma phase_done k : ∀ c i cur,
  ps !! i = Some cur → length ps = S i → phase_whole cur →
  (1 ≤ c)%nat → (c + k = m)%nat →
  ∃ t' ns, updates (S k * cycle_calls cur) (T true (WorkDuration cur) c i) =
             Some (t', ns, replicate (S k * cycle_calls cur - 1) false ++ [true]).
Proof.
  induction k as [|k IH]; intros c i cur Hi Hn Hcur Hc Hk.
  - rewrite Nat.mul_1_l. apply cycle_done; try done; lia.
  - replace (S (S k) * cycle_calls cur)%nat
      with (cycle_calls cur + S k * cycle_calls cur)%nat by lia.
    rewrite updates_app.
    destruct (cycle_more c i cur Hi Hcur ltac:(lia)) as [ns1 ->].
    destruct (IH (S c) i cur Hi Hn Hcur ltac:(lia) ltac:(lia)) as (t' & ns2 & ->).
    eexists _, _. f_equal. f_equal.
    rewrite app_assoc, <- replicate_add. do 2 f_equal.
    unfold cycle_calls. lia.
Qed.

(** The rest of the program from the start of phase [length pre]. *)
Lemma program_done suf : ∀ pre cur,
  ps = pre ++ cur :: suf → Forall phase_whole (cur :: suf) → (1 ≤ m)%nat →
  ∃ t' ns,
    updates (program_calls m (cur :: suf))
            (T true (WorkDuration cur) 1 (length pre)) =
      Some (t', ns,
            replicate (program_calls m (cur :: suf) - 1) false ++ [true]).
Proof.
  induction suf as [|nxt suf IH]; intros pre cur Hps Hall Hm1;
    assert (∃ k, (1 + k = m)%nat) as [k Hk] by (exists (m - 1)%nat; lia);
    assert (Hmk : (m * cycle_calls cur = S k * cycle_calls cur)%nat)
      by (f_equal; lia);
    cbn [program_calls]; rewrite Hmk.
  - rewrite Nat.add_0_r. apply phase_done; try done.
    + rewrite Hps. by apply list_lookup_middle.
    + rewrite Hps, length_app. cbn. lia.
    + by inversion Hall.
  - change (m * cycle_calls nxt + program_calls m suf)%nat
      with (program_calls m (nxt :: suf)).
    rewrite updates_app.
    destruct (phase_next k 1 (length pre) cur nxt) as [ns1 ->]; try done.
    + rewrite Hps. by apply list_lookup_middle.
    + rewrite Hps. rewrite (cons_middle cur), app_assoc.
      apply list_lookup_middle. rewrite length_app. cbn. lia.
    + by inversion Hall.
    + destruct (IH (pre ++ [cur]) nxt) as (t' & ns2 & Hrun); try done.
      * by rewrite <- app_assoc.
      * by inversion Hall.
      * rewrite length_app in Hrun. cbn [length] in Hrun.
        rewrite Nat.add_1_r in Hrun. rewrite Hrun.
        eexists _, _. f_equal. f_equal.
        rewrite app_assoc, <- replicate_add. do 2 f_equal.
        cbn [program_calls]. unfold cycle_calls. lia.
Qed.

End Run.

(** X6. A bounded timer runs for a fixed number of ticks. For a
    configuration with [maxCycles = m >= 1] whose phases last whole
    numbers of seconds, the fresh timer reports completion on call number
    [N] of [update] and on no earlier call, where [N] is the sum over the
    phases of [m * (work seconds + 1 + break seconds + 1)]: one call per
    second and one more for each transition. *)
Theorem bounded_timer_run_length (config : TimerConfig) (t : Timer) (m : nat) :
  timerFromConfig config = Some t →
  MaxCycles config = Z.of_nat m → (1 ≤ m)%nat → Z.of_nat m < 2 ^ 63 - 1 →
  Forall phase_whole (Phases config) → fits_int (Phases config) →
  let N := program_calls m (Phases config) in
  ∃ t' ns, updates N t = Some (t', ns, replicate (N - 1) false ++ [true]).
Proof.
  intros Ht Hmax Hm1 Hm Hall Hfit N.
  unfold timerFromConfig in Ht. rewrite index_0 in Ht.
  destruct (Phases config) as [|cur suf] eqn:Hps; [done|].
  cbn in Ht. injection Ht as <-. rewrite Hmax.
  exact (program_done (cur :: suf) m (Name config) (NotifText config)
           Hfit Hm suf [] cur eq_refl Hall Hm1).
Qed.

Lemma bounded_timer_run_length_witness :
  let config := mkTimerConfig "tea" "steep"
                  [mkTimerPhase (2 * Second) (1 * Second);
                   mkTimerPhase (1 * Second) 0] 2 in
  ∃ t t' ns, timerFromConfig config = Some t ∧
    updates 16 t = Some (t', ns, replicate 15 false ++ [true]).
Proof.
  cbn zeta. eexists. 
  destruct (bounded_timer_run_length
    (mkTimerConfig "tea" "steep"
       [mkTimerPhase (2 * Second) (1 * Second); mkTimerPhase (1 * Second) 0] 2)
    _ 2%nat eq_refl eq_refl) as (t' & ns & Hrun).
  - lia.
  - by vm_compute.
  - repeat constructor; by vm_compute.
  - by vm_compute.
  - exists t', ns. split; [reflexivity|exact Hrun].
Defined.

(** * Further properties of the manager *)

(** X7. A tick updates every timer exactly once. If [rs] lists, timer by
    timer, what [update] returns, then after the tick the active list
    holds the updated timers that did not report completion, in their
    original order; the notifications come out last timer first; the
    configurations are not touched; and a redraw request is posted exactly
    when the list was not empty. The removal inside the backwards loop
    neither skips nor repeats a timer. *)
Theorem tick_updates_each_timer_once (tm : TimerManager)
    (rs : list (Timer * list Notification * bool)) :
  Forall2 (λ t r, update t = Some r) (activeTimers tm) rs →
  tick tm =
    Some (mkTimerManager
            ((λ r, r.1.1) <$> filter (λ r, r.2 = false) rs)
            (configs tm)
            (if bool_decide (activeTimers tm = []) then displayChan tm
             else try_send (displayChan tm) true),
          concat ((λ r, r.1.2) <$> reverse rs)).
Proof.
  intros Hrs. rewrite tick_spec.
  assert (Hl : tick_list (activeTimers tm) =
                 Some ((λ r, r.1.1) <$> filter (λ r, r.2 = false) rs,
                       concat ((λ r, r.1.2) <$> reverse rs))).
  { induction Hrs as [|t [[t' ns] c] ts rs' Hu _ IH]; [done|].
    cbn [tick_list]. rewrite IH, Hu. f_equal. f_equal.
    - destruct c.
      + by rewrite filter_cons_False by (cbn; congruence).
      + by rewrite filter_cons_True by done.
    - rewrite reverse_cons, fmap_app, concat_app. cbn. by rewrite app_nil_r. }
  by rewrite Hl.
Qed.

Lemma tick_updates_each_timer_once_witness :
  let a := demo_timer "a" "x" 1 (-1) in
  let b := mkTimer (mkTimerState false 0 1 0 "b" "y") demo_phases 1 false in
  let c := mkTimer (mkTimerState true 0 1 0 "c" "z") demo_phases 1 false in
  tick (mkTimerManager [a; b; c] [] (make_chan 1)) =
    Some (mkTimerManager
            [mkTimer (mkTimerState true (1 * Second) 1 0 "a" "x") demo_phases (-1) false;
             mkTimer (mkTimerState false (1 * Second) 1 0 "c" "z") demo_phases 1 false]
            [] (mkChan 1 [true]),
          [mkNotification "c" "Break: z";
           mkNotification "b" "All phases completed: y"]).
Proof.
  cbn zeta.
  refine (tick_updates_each_timer_once
    (mkTimerManager
       [demo_timer "a" "x" 1 (-1);
        mkTimer (mkTimerState false 0 1 0 "b" "y") demo_phases 1 false;
        mkTimer (mkTimerState true 0 1 0 "c" "z") demo_phases 1 false]
       [] (make_chan 1))
    [(mkTimer (mkTimerState true (1 * Second) 1 0 "a" "x") demo_phases (-1) false,
      [], false);
     (mkTimer (mkTimerState false 0 2 1 "b" "y") demo_phases 1 false,
      [mkNotification "b" "All phases completed: y"], true);
     (mkTimer (mkTimerState false (1 * Second) 1 0 "c" "z") demo_phases 1 false,
      [mkNotification "c" "Break: z"], false)] _).
  repeat constructor.
Defined.

(** X8. Ticks do not move paused timers. When every active timer is
    paused, any number of ticks leaves the list of timers and the list of
    configurations exactly as they were and sends no notification; only
    the redraw request is posted. *)
Theorem paused_timers_survive_ticks (tm : TimerManager) (n : nat) :
  Forall (λ t, isPaused t = true) (activeTimers tm) →
  ∃ tm', startUpdateLoop n tm = Some tm' ∧
    activeTimers tm' = activeTimers tm ∧ configs tm' = configs tm ∧
    (∀ out tm1, tick tm = Some (tm1, out) → out = []).
Proof.
  intros Hall.
  assert (Hl : ∀ ts, Forall (λ t, isPaused t = true) ts →
                     tick_list ts = Some (ts, [])).
  { induction 1 as [|t ts Ht _ IH]; [done|].
    cbn [tick_list]. by rewrite IH, (update_paused t Ht). }
  assert (Ht : ∀ tm0, Forall (λ t, isPaused t = true) (activeTimers tm0) →
      ∃ ch, tick tm0 = Some (mkTimerManager (activeTimers tm0) (configs tm0) ch, [])).
  { intros tm0 H0. rewrite tick_spec, (Hl _ H0). by eexists. }
  revert tm Hall. induction n as [|n IH]; intros tm Hall.
  - exists tm. split_and!; try done.
    intros out tm1. destruct (Ht tm Hall) as [ch ->]. by intros [= _ <-].
  - cbn [startUpdateLoop]. destruct (Ht tm Hall) as [ch Htk]. rewrite Htk.
    destruct (IH (mkTimerManager (activeTimers tm) (configs tm) ch) Hall)
      as (tm' & -> & Hts & Hcs & _).
    exists tm'. split_and!; try done.
    intros out tm1. by intros [= _ <-].
Qed.

Lemma paused_timers_survive_ticks_witness :
  let p := set_isPaused true (demo_timer "tea" "steep" 1 2) in
  ∃ tm', startUpdateLoop 9 (mkTimerManager [p; p] [] (make_chan 1)) = Some tm' ∧
    activeTimers tm' = [p; p].
Proof.
  cbn zeta.
  destruct (paused_timers_survive_ticks
    (mkTimerManager [set_isPaused true (demo_timer "tea" "steep" 1 2);
                     set_isPaused true (demo_timer "tea" "steep" 1 2)]
                    [] (make_chan 1)) 9)
    as (tm' & Hrun & Hts & _).
  { repeat constructor. }
  exists tm'. exact (conj Hrun Hts).
Defined.

Lemma tick_list_unlimited ts :
  Forall (λ t, maxCycles t = -1 ∧ timer_ok t) ts →
  ∃ ts' out, tick_list ts = Some (ts', out) ∧ length ts' = length ts ∧
    Forall (λ t, maxCycles t = -1 ∧ timer_ok t) ts'.
Proof.
  induction 1 as [|t ts [Hm Hok] _ (ts' & out & Hl & Hlen & Hall)].
  { by eexists _, _. }
  cbn [tick_list]. rewrite Hl.
  destruct (unlimited_step t Hm Hok) as (t' & ns & Hu & Hm' & Hok').
  rewrite Hu. eexists _, _. split; [done|]. split; [cbn; lia|].
  by constructor.
Qed.

(** X9. Timers with unlimited cycles are never removed: when every
    active timer has [maxCycles = -1] (and its phase index in range), any
    number of ticks leaves the list with the same number of timers, and
    the configurations as they were. *)
Theorem unlimited_timers_stay (tm : TimerManager) (n : nat) :
  Forall (λ t, maxCycles t = -1 ∧ timer_ok t) (activeTimers tm) →
  ∃ tm', startUpdateLoop n tm = Some tm' ∧
    length (activeTimers tm') = length (activeTimers tm) ∧
    configs tm' = configs tm.
Proof.
  revert tm. induction n as [|n IH]; intros tm Hall; cbn [startUpdateLoop].
  { by exists tm. }
  destruct (tick_list_unlimited _ Hall) as (ts' & out & Hl & Hlen & Hall').
  rewrite tick_spec, Hl.
  match goal with |- context [mkTimerManager ts' (configs tm) ?ch] =>
    destruct (IH (mkTimerManager ts' (configs tm) ch) Hall')
      as (tm' & -> & Hlen' & Hcs)
  end.
  exists tm'. split; [done|]. cbn in *. split; [lia|done].
Qed.

Lemma unlimited_timers_stay_witness :
  ∃ tm', startUpdateLoop 50
           (mkTimerManager [demo_timer "a" "x" 1 (-1); demo_timer "b" "y" 1 (-1)]
                           [] (make_chan 1)) = Some tm' ∧
    length (activeTimers tm') = 2%nat.
Proof.
  destruct (unlimited_timers_stay
    (mkTimerManager [demo_timer "a" "x" 1 (-1); demo_timer "b" "y" 1 (-1)]
                    [] (make_chan 1)) 50) as (tm' & Hrun & Hlen & _).
  { repeat constructor; unfold phase_inv, fits_int, len; cbn; lia. }
  exists tm'. exact (conj Hrun Hlen).
Defined.

(** ** The indexed commands *)

(** X10. An index that is not between 1 and the number of active timers
    is ignored: pause, reset and delete with such an index leave the
    manager exactly as it is, and delete does not write the file. *)
Theorem out_of_range_index_ignored (num : Z) (w : World) :
  num <= 0 ∨ len (activeTimers (manager w)) < num →
  cmd_pause num (manager w) = Some (manager w) ∧
  cmd_reset num (manager w) = Some (manager w) ∧
  cmd_delete num w = Some w.
Proof.
  intros Hnum.
  assert (Hv : valid_num num (manager w) = false).
  { unfold valid_num. apply andb_false_iff.
    destruct Hnum; [left; by apply Z.ltb_ge|right; by apply Z.leb_gt]. }
  unfold cmd_pause, cmd_reset, cmd_delete. by rewrite Hv.
Qed.

Lemma out_of_range_index_ignored_witness :
  let w := mkWorld (mkTimerManager [demo_timer "a" "x" 1 (-1)]
                      [mkTimerConfig "a" "x" demo_phases (-1)] (make_chan 1)) None in
  cmd_pause 2 (manager w) = Some (manager w) ∧
  cmd_reset 0 (manager w) = Some (manager w) ∧
  cmd_delete (-3) w = Some w.
Proof.
  cbn zeta.
  pose (w := mkWorld (mkTimerManager [demo_timer "a" "x" 1 (-1)]
                        [mkTimerConfig "a" "x" demo_phases (-1)] (make_chan 1)) None).
  split; [|split].
  - exact (proj1 (out_of_range_index_ignored 2 w (or_intror eq_refl))).
  - exact (proj1 (proj2 (out_of_range_index_ignored 0 w
                           (or_introl (Z.le_refl 0))))).
  - refine (proj2 (proj2 (out_of_range_index_ignored (-3) w (or_introl _)))).
    discriminate.
Defined.

(** X11. The pause command flips the paused flag of the addressed timer
    and nothing else, and giving it twice restores the manager. *)
Theorem pause_toggles (num : Z) (tm : TimerManager) :
  valid_num num tm = true →
  let i := Z.to_nat (num - 1) in
  ∃ t tm1,
    activeTimers tm !! i = Some t ∧
    cmd_pause num tm = Some tm1 ∧
    activeTimers tm1 = <[i := set_isPaused (negb (isPaused t)) t]> (activeTimers tm) ∧
    configs tm1 = configs tm ∧ displayChan tm1 = displayChan tm ∧
    cmd_pause num tm1 = Some tm.
Proof.
  intros Hv i.
  destruct (valid_num_lookup _ _ Hv) as (t & Ht & Hit). fold i in Ht.
  exists t. eexists. split; [done|].
  unfold cmd_pause at 1. rewrite Hv, Hit. fold i.
  split; [done|]. cbn [activeTimers configs displayChan].
  split; [done|]. split; [done|]. split; [done|].
  pose proof (lookup_lt_Some _ _ _ Ht) as Hlt.
  unfold cmd_pause, valid_num, index in *. cbn [activeTimers configs displayChan].
  unfold len in *. rewrite length_insert. rewrite Hv.
  destruct (num - 1 <? 0); [done|]. fold i.
  rewrite list_lookup_insert_eq by done.
  rewrite list_insert_insert_eq. f_equal.
  destruct tm as [ts cs ch]. cbn in *. f_equal.
  apply list_insert_id. rewrite Ht. f_equal.
  destruct t as [s ps mx p]. unfold set_isPaused. cbn. by rewrite negb_involutive.
Qed.

Lemma pause_toggles_witness :
  let a := demo_timer "a" "x" 1 (-1) in
  ∃ tm1, cmd_pause 1 (mkTimerManager [a] [] (make_chan 1)) = Some tm1 ∧
    activeTimers tm1 = [set_isPaused true a] ∧
    cmd_pause 1 tm1 = Some (mkTimerManager [a] [] (make_chan 1)).
Proof.
  cbn zeta.
  destruct (pause_toggles 1
    (mkTimerManager [demo_timer "a" "x" 1 (-1)] [] (make_chan 1)) eq_refl)
    as (t & tm1 & Ht & Hp & Hts & _ & _ & Hback).
  injection Ht as <-.
  exists tm1. split; [exact Hp|]. split; [exact Hts|exact Hback].
Defined.

(** ** Lock-step of timers and configurations *)

Lemma timerFromConfig_built c t : timerFromConfig c = Some t → built_from t c.
Proof.
  unfold timerFromConfig. destruct (index (Phases c) 0); [|done].
  by intros [= <-].
Qed.

Lemma Forall2_insert_l {A B} (P : A → B → Prop) l k i x x' :
  Forall2 P l k → l !! i = Some x → (∀ y, P x y → P x' y) →
  Forall2 P (<[i:=x']> l) k.
Proof.
  intros H. revert i. induction H as [|a b l k Hab Hlk IH]; intros [|i]; cbn; try done.
  - intros [= ->] Hx. constructor; auto.
  - intros Hi Hx. constructor; auto.
Qed.

Lemma tick_list_length ts ts' out :
  tick_list ts = Some (ts', out) → (length ts' ≤ length ts)%nat.
Proof.
  revert ts' out. induction ts as [|t ts IH]; intros ts' out; cbn [tick_list].
  - by intros [= <- _].
  - destruct (tick_list ts) as [[r' o]|]; [|done].
    destruct (update t) as [[[t' ns] c]|]; [|done].
    specialize (IH r' o eq_refl). intros [= <- _]. destruct c; cbn; lia.
Qed.

Lemma tick_list_same_length ts ts' out :
  tick_list ts = Some (ts', out) → length ts' = length ts →
  Forall2 (λ t t', ∃ ns, update t = Some (t', ns, false)) ts ts'.
Proof.
  revert ts' out. induction ts as [|t ts IH]; intros ts' out; cbn [tick_list].
  - intros [= <- _] _. constructor.
  - destruct (tick_list ts) as [[r' o]|] eqn:Hl; [|done].
    destruct (update t) as [[[t' ns] c]|] eqn:Hu; [|done].
    pose proof (tick_list_length _ _ _ Hl) as Hle.
    intros [= <- _] Hlen. destruct c; cbn in Hlen; [lia|].
    constructor; [by exists ns|]. eapply IH; [done|lia].
Qed.

Lemma built_from_update t t' ns c cfg :
  update t = Some (t', ns, c) → built_from t cfg → built_from t' cfg.
Proof.
  intros (Hph & Hm & _ & Hn & Htx & _)%update_frame (H1 & H2 & H3 & H4).
  unfold built_from. by rewrite Hph, Hm, Hn, Htx.
Qed.

Lemma delete_slices num w w' :
  valid_num num (manager w) = true → cmd_delete num w = Some w' →
  activeTimers (manager w') = delete (Z.to_nat (num - 1)) (activeTimers (manager w)) ∧
  configs (manager w') = delete (Z.to_nat (num - 1)) (configs (manager w)).
Proof.
  intros Hv. unfold cmd_delete. rewrite Hv.
  destruct (slice_to (activeTimers _) _) as [a1|] eqn:H1; [|done].
  destruct (slice_from (activeTimers _) _) as [a2|] eqn:H2; [|done].
  destruct (slice_to (configs _) _) as [c1|] eqn:H3; [|done].
  destruct (slice_from (configs _) _) as [c2|] eqn:H4; [|done].
  cbn. intros [= <-]. cbn.
  apply slice_to_Some in H1 as [? ->]. apply slice_from_Some in H2 as [? ->].
  apply slice_to_Some in H3 as [? ->]. apply slice_from_Some in H4 as [? ->].
  rewrite !delete_take_drop.
  replace (Z.to_nat num) with (S (Z.to_nat (num - 1))) by lia. done.
Qed.

Lemma delete_removes_slices num w :
  valid_num num (manager w) = true →
  length (activeTimers (manager w)) = length (configs (manager w)) →
  ∃ w', cmd_delete num w = Some w' ∧
    activeTimers (manager w') =
      delete (Z.to_nat (num - 1)) (activeTimers (manager w)) ∧
    configs (manager w') = delete (Z.to_nat (num - 1)) (configs (manager w)) ∧
    configFile w' = saveTimerConfigs (configs (manager w')).
Proof.
  intros Hv Hlen.
  pose proof (proj1 (valid_num_spec _ _) Hv) as Hn.
  assert (Hnc : 0 < num <= len (configs (manager w))).
  { unfold len in *. by rewrite <- Hlen. }
  destruct (slice_pair_delete (activeTimers (manager w)) num Hn) as [Ha1 Ha2].
  destruct (slice_pair_delete (configs (manager w)) num Hnc) as [Hc1 Hc2].
  eexists. split.
  { unfold cmd_delete. by rewrite Hv, Ha1, Ha2, Hc1, Hc2. }
  cbn. by rewrite <- !delete_take_drop.
Qed.

(** X12. Lock-step of the two lists. The start-up load builds the list
    of timers in lock-step with the list of configurations (same length,
    the timer at each position running the configuration at that
    position), and pause, reset, delete, add, and every tick in which no
    timer completes keep it so. A tick that removes a completed timer
    breaks it: the configuration of that timer stays in the list. *)
Theorem lockstep_kept :
  (∀ EqualFold f tm, startup EqualFold f = Some tm → lockstep tm) ∧
  (∀ num tm tm', lockstep tm → cmd_pause num tm = Some tm' → lockstep tm') ∧
  (∀ num tm tm', lockstep tm → cmd_reset num tm = Some tm' → lockstep tm') ∧
  (∀ num w w', lockstep (manager w) → cmd_delete num w = Some w' →
     lockstep (manager w')) ∧
  (∀ TrimSpace ToLower fuel r w w' r', lockstep (manager w) →
     cmd_add TrimSpace ToLower fuel r w = Some (w', r') →
     lockstep (manager w')) ∧
  (∀ tm tm' out, lockstep tm → tick tm = Some (tm', out) →
     length (activeTimers tm') = length (activeTimers tm) → lockstep tm') ∧
  (∀ tm tm' out, lockstep tm → tick tm = Some (tm', out) →
     length (activeTimers tm') ≠ length (activeTimers tm) → ¬ lockstep tm').
Proof.
  unfold lockstep. split_and!.
  - intros EqualFold f tm. unfold startup.
    destruct (mapM timerFromConfig _) as [ts|] eqn:Hm; [|done].
    cbn. intros [= <-]. cbn. apply mapM_Some_1 in Hm.
    apply Forall2_flip. eapply Forall2_impl; [exact Hm|].
    intros c t. apply timerFromConfig_built.
  - intros num tm tm' Hl. unfold cmd_pause.
    destruct (valid_num num tm); [|by intros [= <-]].
    destruct (index _ _) as [t|] eqn:Hi; [|done]. intros [= <-]. cbn.
    unfold index in Hi. destruct (num - 1 <? 0); [done|].
    by eapply Forall2_insert_l.
  - intros num tm tm' Hl. unfold cmd_reset.
    destruct (valid_num num tm); [|by intros [= <-]].
    destruct (index _ _) as [t|] eqn:Hi; [|done].
    destruct (index (phases t) 0); [|done]. intros [= <-]. cbn.
    unfold index in Hi. destruct (num - 1 <? 0); [done|].
    by eapply Forall2_insert_l.
  - intros num w w' Hl Hd.
    destruct (valid_num num (manager w)) eqn:Hv.
    + destruct (delete_slices _ _ _ Hv Hd) as [-> ->]. by apply Forall2_delete.
    + unfold cmd_delete in Hd. rewrite Hv in Hd. by injection Hd as <-.
  - intros TrimSpace ToLower fuel r w w' r' Hl. unfold cmd_add.
    destruct (createTimer _ _ _ _) as [[[t c] r1]|] eqn:Hc; [|done].
    intros [= <- <-]. cbn. apply Forall2_app; [done|].
    constructor; [|done].
    eapply timerFromConfig_built, createTimer_config, Hc.
  - intros tm tm' out Hl. rewrite tick_spec.
    destruct (tick_list _) as [[ts' o]|] eqn:Ht; [|done].
    intros [= <- _]. cbn. intros Hlen.
    pose proof (tick_list_same_length _ _ _ Ht Hlen) as Hup.
    clear Ht Hlen. revert Hl. generalize (configs tm).
    induction Hup as [|t t' ts ts' [ns Hu] _ IH]; intros cs Hl; [done|].
    inversion Hl as [|? c ? cs' Hb Hrest]; subst.
    constructor; [by eapply built_from_update|by apply IH].
  - intros tm tm' out Hl. rewrite tick_spec.
    destruct (tick_list _) as [[ts' o]|] eqn:Ht; [|done].
    intros [= <- _]. cbn. intros Hlen Hl'.
    apply Forall2_length in Hl, Hl'. congruence.
Qed.

Lemma lockstep_kept_witness :
  let tm := mkTimerManager
              [mkTimer (mkTimerState false 0 1 0 "tea" "steep") demo_phases 1 false]
              [mkTimerConfig "tea" "steep" demo_phases 1] (make_chan 1) in
  lockstep tm ∧
  ∃ tm' out, tick tm = Some (tm', out) ∧ ¬ lockstep tm'.
Proof.
  cbn zeta.
  assert (Hl : lockstep (mkTimerManager
              [mkTimer (mkTimerState false 0 1 0 "tea" "steep") demo_phases 1 false]
              [mkTimerConfig "tea" "steep" demo_phases 1] (make_chan 1))).
  { repeat constructor. }
  split; [exact Hl|]. eexists _, _. split; [reflexivity|].
  refine (proj2 (proj2 (proj2 (proj2 (proj2 (proj2 lockstep_kept)))))
            _ _ _ Hl eq_refl _).
  discriminate.
Defined.

(** ** Restart *)

Lemma mapM_timerFromConfig_Some cs :
  Forall (λ c, Phases c ≠ []) cs →
  ∃ ts, mapM timerFromConfig cs = Some ts.
Proof.
  intros H. apply mapM_is_Some_2. eapply Forall_impl; [exact H|].
  intros c Hc. unfold timerFromConfig. cbn [compose]. rewrite index_0.
  destruct (Phases c) as [|p ps] eqn:E; [congruence|]. by eexists.
Qed.

(** X13. What is saved is what a restart gets. For configurations with
    well-formed UTF-8 strings, [int64] numbers and at least one phase each,
    starting the program on the file written by [saveTimerConfigs] gives a
    manager with exactly these configurations and one fresh timer for each,
    in the same order: every saved timer comes back, including those whose
    timer had completed or been paused, in Working at phase 0, cycle 1, not
    paused, with an empty redraw channel. *)
Theorem restart_restores_saved_timers (EqualFold : string → string → bool)
    (cs : list TimerConfig) :
  Forall config_in_range cs → Forall config_utf8 cs →
  Forall (λ c, Phases c ≠ []) cs →
  ∃ ts, startup EqualFold (saveTimerConfigs cs) =
          Some (mkTimerManager ts cs (make_chan 1)) ∧
    Forall2 (λ t c, timerFromConfig c = Some t) ts cs.
Proof.
  intros Hr Hu Hne. unfold startup, loadTimerConfigs, saveTimerConfigs.
  rewrite decode_configs_encode by done.
  destruct (mapM_timerFromConfig_Some cs Hne) as [ts Hts].
  rewrite Hts. exists ts. split; [done|].
  apply Forall2_flip. by apply mapM_Some_1.
Qed.

Lemma restart_restores_saved_timers_witness :
  let c := mkTimerConfig "tea" "steep" demo_phases 3 in
  ∃ t, startup no_fold (saveTimerConfigs [c]) =
         Some (mkTimerManager [t] [c] (make_chan 1)) ∧
       timerFromConfig c = Some t.
Proof.
  cbn zeta.
  destruct (restart_restores_saved_timers no_fold
              [mkTimerConfig "tea" "steep" demo_phases 3])
    as (ts & Hs & Hts).
  - repeat constructor; by vm_compute.
  - repeat constructor; cbn; repeat (apply valid_1; [reflexivity|]); apply valid_nil.
  - repeat constructor. discriminate.
  - inversion Hts as [|t c ts' cs' Ht Hrest]; subst.
    inversion Hrest; subst. exists t. exact (conj Hs Ht).
Defined.

(** X14. The start-up load at its edges. A missing file is not an
    error and, like a file that cannot be decoded, leaves the manager
    empty; a file that decodes starts one timer per configuration; and the
    start-up panics exactly when some loaded configuration has no phase. *)
Theorem startup_edges (EqualFold : string → string → bool) (f : File) :
  (f = None → loadTimerConfigs EqualFold f = inl [] ∧
              startup EqualFold f = Some NewTimerManager) ∧
  (∀ e, loadTimerConfigs EqualFold f = inr e →
        startup EqualFold f = Some NewTimerManager) ∧
  (∀ cs, loadTimerConfigs EqualFold f = inl cs →
     (startup EqualFold f = None ↔ Exists (λ c, Phases c = []) cs) ∧
     (∀ tm, startup EqualFold f = Some tm →
        configs tm = cs ∧ length (activeTimers tm) = length cs)).
Proof.
  split_and!.
  - by intros ->.
  - intros e He. unfold startup. by rewrite He.
  - intros cs Hcs. unfold startup. rewrite Hcs. split.
    + destruct (mapM timerFromConfig cs) as [ts|] eqn:Hm; cbn.
      * split; [done|]. intros Hex.
        assert (Hn : mapM timerFromConfig cs = None); [|congruence].
        apply mapM_None_2. eapply Exists_impl; [exact Hex|]. intros c Hc.
        unfold timerFromConfig. by rewrite index_0, Hc.
      * split; [|done]. intros _. apply mapM_None_1 in Hm.
        eapply Exists_impl; [exact Hm|]. intros c.
        unfold timerFromConfig. rewrite index_0. by destruct (Phases c).
    + intros tm. destruct (mapM timerFromConfig cs) as [ts|] eqn:Hm; [|done].
      cbn. intros [= <-]. cbn. split; [done|].
      apply mapM_Some_1, Forall2_length in Hm. done.
Qed.

Lemma startup_edges_witness :
  startup no_fold (Some (Document (JArr [JObj [("Name", JStr "tea")]]))) = None.
Proof.
  refine (proj2 (proj1 (proj2 (proj2 (startup_edges no_fold
    (Some (Document (JArr [JObj [("Name", JStr "tea")]])))))
    [mkTimerConfig "tea" EmptyString [] 0] eq_refl)) _).
  by constructor.
Defined.

(** ** No panic *)




(** * Further properties of the parser and of the interactive input *)

Lemma Contains_count s sep : Contains s sep = true ↔ (0 < count_byte s sep)%nat.
Proof.
  induction s as [|c r IH]; cbn [Contains count_byte]; [split; [done|lia]|].
  destruct (Ascii.eqb c sep); cbn [orb]; [split; [lia|done]|].
  by rewrite IH.
Qed.

Lemma Split_length s sep : length (Split s sep) = S (count_byte s sep).
Proof.
  induction s as [|c r IH]; cbn [Split count_byte]; [done|].
  destruct (Ascii.eqb c sep); cbn [length]; [by rewrite IH|].
  pose proof (Split_nonempty r sep).
  destruct (Split r sep) as [|p ps]; [done|]. cbn [length] in *. lia.
Qed.

Lemma Contains_false_count s sep :
  Contains s sep = false ↔ count_byte s sep = 0%nat.
Proof.
  pose proof (Contains_count s sep) as H.
  destruct (Contains s sep); split; intros; try done; try lia.
Qed.

Lemma count_join a b sep :
  count_byte (a +:+ String sep b) sep = S (count_byte a sep + count_byte b sep).
Proof.
  induction a as [|c r IH]; rewrite ?append_nil_l, ?append_cons;
    cbn [count_byte].
  - rewrite Ascii.eqb_refl. lia.
  - rewrite IH. destruct (Ascii.eqb c sep); lia.
Qed.

(** X15. How [parseDuration] fails. With [s] the trimmed input: the
    error is "invalid format" exactly when [s] has two or more [":"]; it is
    "invalid numbers" exactly when [s] has one [":"] and one of the two
    fields is not an integer literal; and it is the error of [Atoi] exactly
    when [s] has no [":"] and is not an integer literal. The empty string
    is a syntax error of [Atoi]. *)
Theorem parseDuration_errors (TrimSpace : string → string) (input : string) :
  let s := TrimSpace input in
  (parseDuration TrimSpace input = inr ErrInvalidFormat ↔
     (2 ≤ count_byte s ":")%nat) ∧
  (parseDuration TrimSpace input = inr ErrInvalidNumbers ↔
     ∃ a b, s = a +:+ String ":"%char b ∧ count_byte s ":" = 1%nat ∧
            ¬ ∃ m n, IntLiteral a m ∧ IntLiteral b n) ∧
  (∀ e, parseDuration TrimSpace input = inr (ErrAtoi e) ↔
     count_byte s ":" = 0%nat ∧ Atoi s = inr e) ∧
  (s = EmptyString → parseDuration TrimSpace input = inr (ErrAtoi ErrSyntax)).
Proof.
  intros s. unfold parseDuration. fold s.
  pose proof (Split_length s ":"%char) as Hlen.
  destruct (Contains s ":"%char) eqn:Hc.
  - pose proof (proj1 (Contains_count _ _) Hc) as Hpos.
    destruct (Split s ":"%char) as [|p0 [|p1 [|p2 ps]]] eqn:Hs;
      cbn [length] in Hlen.
    + lia.
    + exfalso. lia.
    + apply Split_two in Hs as (Hs & Hp0 & Hp1).
      split_and!.
      * split; [|lia]. by destruct (Atoi p0), (Atoi p1).
      * split.
        -- intros Herr. exists p0, p1. split; [done|]. split; [lia|].
           intros (m & n & Hm%Atoi_spec & Hn%Atoi_spec).
           by rewrite Hm, Hn in Herr.
        -- intros (a & b & Hab & _ & Hno).
           destruct (Atoi p0) as [m|] eqn:Hm; [|done].
           destruct (Atoi p1) as [n|] eqn:Hn; [|done].
           exfalso. apply Hno.
           assert (Hsplit : [a; b] = [p0; p1]).
           { assert (Ha : Contains a ":"%char = false ∧ Contains b ":"%char = false).
             { rewrite !Contains_false_count.
               assert (count_byte s ":" = 1)%nat as H1 by lia.
               rewrite Hab, count_join in H1. lia. }
             destruct Ha as [Ha Hb].
             rewrite <- (Split_no_sep b ":"%char Hb), <- Split_join by done.
             rewrite <- Hab, Hs, Split_join, Split_no_sep by done. done. }
           injection Hsplit as -> ->. exists m, n. by rewrite <- !Atoi_spec.
      * intros e. split; [by destruct (Atoi p0), (Atoi p1)|]. intros [H0 _]. lia.
      * intros He. rewrite He in Hc. done.
    + split_and!.
      * split; [lia|done].
      * split; [done|]. intros (a & b & _ & H1 & _). lia.
      * intros e. split; [done|]. intros [H0 _]. lia.
      * intros He. rewrite He in Hc. done.
  - pose proof (proj1 (Contains_false_count _ _) Hc) as H0.
    split_and!.
    + split; [by destruct (Atoi s)|lia].
    + split; [by destruct (Atoi s)|]. intros (a & b & _ & H1 & _). lia.
    + intros e. split.
      * destruct (Atoi s) as [m|e'] eqn:Hm; [done|]. by intros [= ->].
      * intros [_ ->]. done.
    + intros ->. done.
Qed.

Lemma parseDuration_errors_witness :
  parseDuration ascii_TrimSpace "1:2:3" = inr ErrInvalidFormat ∧
  parseDuration ascii_TrimSpace "  " = inr (ErrAtoi ErrSyntax).
Proof.
  split.
  - refine (proj2 (proj1 (parseDuration_errors ascii_TrimSpace "1:2:3")) _).
    by vm_compute.
  - exact (proj2 (proj2 (proj2 (parseDuration_errors ascii_TrimSpace "  ")))
             eq_refl).
Defined.









(** X18. At the end of input the phase loop never ends. When standard
    input is exhausted every read gives the empty string, which is not a
    duration, so the loop that asks for work and break times asks again for
    ever: [createTimer] returns for no amount of fuel if the input ends
    before a work and a break duration have both been read. *)
Theorem createTimer_spins_at_end_of_input (TrimSpace ToLower : string → string)
    (fuel : nat) (r : list string) :
  TrimSpace EmptyString = EmptyString →
  (∀ phs, (length r ≤ 1)%nat →
     read_phases TrimSpace ToLower fuel phs r = None) ∧
  ((length r ≤ 3)%nat → createTimer TrimSpace ToLower fuel r = None).
Proof.
  intros Hts.
  assert (Hempty : parseDuration TrimSpace EmptyString = inr (ErrAtoi ErrSyntax)).
  { unfold parseDuration. by rewrite Hts. }
  assert (H0 : ∀ fuel phs, read_phases TrimSpace ToLower fuel phs [] = None).
  { intros f. induction f as [|f IH]; intros phs; cbn [read_phases readLine]; [done|].
    by rewrite Hts, Hempty. }
  assert (H1 : ∀ fuel phs r, (length r ≤ 1)%nat →
                             read_phases TrimSpace ToLower fuel phs r = None).
  { intros f phs [|w [|w' r0]] Hlen; [apply H0| |cbn in Hlen; lia].
    destruct f as [|f]; [done|]. cbn [read_phases readLine].
    destruct (parseDuration TrimSpace (TrimSpace w)); [|apply H0].
    by rewrite Hts, Hempty. }
  split; [intros phs; apply H1|].
  intros Hlen. unfold createTimer.
  destruct r as [|nm [|tx r0]]; cbn [readLine].
  - by rewrite H0.
  - by rewrite H0.
  - rewrite H1; [done|]. cbn in Hlen. lia.
Qed.

Lemma createTimer_spins_at_end_of_input_witness :
  createTimer ascii_TrimSpace ascii_ToLower 1000 ["tea"; "steep"; "25"] = None.
Proof.
  refine (proj2 (createTimer_spins_at_end_of_input ascii_TrimSpace ascii_ToLower
                   1000 ["tea"; "steep"; "25"] eq_refl) _).
  cbn. lia.
Defined.

(** X19. Add and delete undo each other. With the two lists of equal
    length, adding a timer puts it and its configuration at the end of the
    two lists, under the index that is one more than the number of timers
    there were; deleting that index gives back the two lists as they were
    before the add. Both commands save the configuration list they leave. *)
Theorem add_then_delete (TrimSpace ToLower : string → string) (fuel : nat)
    (r r' : list string) (w w1 : World) :
  length (activeTimers (manager w)) = length (configs (manager w)) →
  cmd_add TrimSpace ToLower fuel r w = Some (w1, r') →
  (∃ t c, activeTimers (manager w1) = activeTimers (manager w) ++ [t] ∧
          configs (manager w1) = configs (manager w) ++ [c] ∧
          timerFromConfig c = Some t ∧
          configFile w1 = saveTimerConfigs (configs (manager w1))) ∧
  ∃ w2, cmd_delete (len (activeTimers (manager w)) + 1) w1 = Some w2 ∧
        activeTimers (manager w2) = activeTimers (manager w) ∧
        configs (manager w2) = configs (manager w) ∧
        configFile w2 = saveTimerConfigs (configs (manager w)).
Proof.
  intros Hlen. unfold cmd_add.
  destruct (createTimer _ _ _ _) as [[[t c] r1]|] eqn:Hc; [|done].
  intros [= <- <-]. cbn [manager activeTimers configs configFile].
  split.
  { exists t, c. split_and!; try done. by eapply createTimer_config. }
  set (ts := activeTimers (manager w)) in *.
  set (cs := configs (manager w)) in *.
  set (w1 := mkWorld (mkTimerManager (ts ++ [t]) (cs ++ [c])
                        (displayChan (manager w)))
                     (saveTimerConfigs (cs ++ [c]))).
  assert (Hv : valid_num (len ts + 1) (manager w1) = true).
  { apply valid_num_spec. cbn. unfold len. rewrite length_app. cbn. lia. }
  destruct (delete_removes_slices (len ts + 1) w1 Hv) as (w2 & Hd & Hts & Hcs & Hf).
  { cbn. by rewrite !length_app, Hlen. }
  exists w2. split; [done|].
  replace (Z.to_nat (len ts + 1 - 1)) with (length ts) in Hts, Hcs
    by (unfold len; lia).
  cbn [manager activeTimers configs w1] in Hts, Hcs.
  assert (Ets : delete (length ts) (ts ++ [t]) = ts).
  { rewrite (delete_middle ts [] t). apply app_nil_r. }
  assert (Ecs : delete (length ts) (cs ++ [c]) = cs).
  { rewrite Hlen, (delete_middle cs [] c). apply app_nil_r. }
  by rewrite Hf, Hcs, Hts, Ets, Ecs.
Qed.

Lemma add_then_delete_witness :
  let w := mkWorld (mkTimerManager [demo_timer "a" "x" 1 (-1)]
                      [mkTimerConfig "a" "x" demo_phases (-1)] (make_chan 1)) None in
  ∃ w1 r' w2,
    cmd_add ascii_TrimSpace ascii_ToLower 2
      ["tea"; "steep"; "0:02"; "0:01"; "n"; "3"] w = Some (w1, r') ∧
    cmd_delete 2 w1 = Some w2 ∧
    activeTimers (manager w2) = activeTimers (manager w) ∧
    configs (manager w2) = configs (manager w).
Proof.
  cbn zeta. eexists _, _.
  destruct (add_then_delete ascii_TrimSpace ascii_ToLower 2
    ["tea"; "steep"; "0:02"; "0:01"; "n"; "3"] _
    (mkWorld (mkTimerManager [demo_timer "a" "x" 1 (-1)]
                [mkTimerConfig "a" "x" demo_phases (-1)] (make_chan 1)) None)
    _ eq_refl eq_refl) as (_ & w2 & Hd & Hts & Hcs & _).
  exists w2. split; [reflexivity|]. split; [exact Hd|]. exact (conj Hts Hcs).
Defined.
